(** * Heading extraction from the paragraphs of a Word document

    A shallow embedding of [extract_headings] from
    [extract_word_headings_with_chinese_comments.py] and the properties of
    its heading tree.

    A Python [str] is a sequence of Unicode code points: a [list N].  The
    three patterns are run by a small backtracking matcher that follows the
    order in which Python's [re] engine tries the alternatives (greedy
    repeats, longest first).  The table of decimal digits behind [\d]
    belongs to the interpreter's Unicode database and is a parameter.  The
    dictionary of headings is a finite map (the order of insertion, which
    a Python [dict] keeps, plays no part in what is proved); every [{}] is
    a fresh object stored once, so updating in place is updating the map.
    The two exceptions the loop body can raise ([KeyError] from a
    subscript, [IndexError] from [group(1)]) are values of an error monad.
    Loading the document is left out: the extractor starts from the texts
    of [document.paragraphs]. *)

From stdpp Require Import base option list strings gmap.

(** A Python string, code point by code point. *)
Abbreviation str := (list N).

(** ASCII literals, for the examples. *)
Definition u (s : string) : str :=
  map Ascii.N_of_ascii (String.list_ascii_of_string s).

(** ** Character predicates of the interpreter *)
Module Unicode.
Local Open Scope N_scope.

(** [Py_UNICODE_ISSPACE]: what [str.strip()] removes and what [\s]
    matches in a [str] pattern (general category Zs, or bidirectional
    class WS, B or S). *)
Definition isspace (c : N) : bool :=
  ((9 <=? c) && (c <=? 13)) || ((28 <=? c) && (c <=? 32))
  || (c =? 133) || (c =? 160) || (c =? 5760)
  || ((8192 <=? c) && (c <=? 8202))
  || (c =? 8232) || (c =? 8233) || (c =? 8239) || (c =? 8287)
  || (c =? 12288).

(** The line feed, the one character [.] refuses. *)
Definition LF : N := 10.

(** The full stop of [\.]. *)
Definition FULL_STOP : N := 46.

(** The ASCII part of the decimal-digit table, ['0'] to ['9']. *)
Definition ascii_isdecimal (c : N) : bool := (48 <=? c) && (c <=? 57).

End Unicode.

(** ** [str.strip()] *)

Fixpoint lstrip (s : str) : str :=
  match s with
  | [] => []
  | c :: s' => if Unicode.isspace c then lstrip s' else s
  end.

Definition rstrip (s : str) : str := reverse (lstrip (reverse s)).

Definition strip (s : str) : str := rstrip (lstrip s).

(** ** The regular expressions *)
Module Re.
Local Open Scope N_scope.

(** The character sets the three patterns use. *)
Inductive category :=
| Digit          (* \d *)
| Space          (* \s *)
| Any.           (* .  (no DOTALL flag: anything but a line feed) *)

(** The pattern items the three patterns use. *)
Inductive node :=
| At_beginning                    (* ^ *)
| At_end                          (* $ *)
| Literal (c : N)                 (* \. *)
| Max_repeat1 (k : category)      (* k+ *)
| Group_repeat1 (k : category).   (* (k+) *)

(** [$] without MULTILINE: at the end of the string, or just before a
    line feed that ends the string. *)
Definition at_end (s : str) : bool :=
  match s with
  | [] => true
  | [c] => c =? Unicode.LF
  | _ => false
  end.

(** A greedy [+] over one-character items: take a character, first try to
    take more, and only then hand the rest to the continuation. *)
Fixpoint max_repeat1 {A} (p : N → bool) (k : str → option A) (s : str)
  : option A :=
  match s with
  | [] => None
  | c :: s' =>
      if p c then
        match max_repeat1 p k s' with
        | Some r => Some r
        | None => k s'
        end
      else None
  end.

Section Matcher.
(** [Py_UNICODE_ISDECIMAL], the table behind [\d] (general category
    Nd of the interpreter's Unicode database). *)
Variable isdecimal : N → bool.

Definition in_category (k : category) (c : N) : bool :=
  match k with
  | Digit => isdecimal c
  | Space => Unicode.isspace c
  | Any => negb (c =? Unicode.LF)
  end.

(** Runs the items from the current position; [bos] says that the
    position is the start of the string, [groups] are the groups
    closed so far.  The result is the groups of the first successful
    way to match, in the engine's order. *)
Fixpoint exec (prog : list node) (bos : bool) (groups : list str)
  (s : str) : option (list str) :=
  match prog with
  | [] => Some groups
  | At_beginning :: prog' =>
      if bos then exec prog' bos groups s else None
  | At_end :: prog' =>
      if at_end s then exec prog' bos groups s else None
  | Literal c :: prog' =>
      match s with
      | c' :: s' => if c' =? c then exec prog' false groups s' else None
      | [] => None
      end
  | Max_repeat1 k :: prog' =>
      max_repeat1 (in_category k) (exec prog' false groups) s
  | Group_repeat1 k :: prog' =>
      max_repeat1 (in_category k)
        (λ rest,
           exec prog' false
             (groups ++ [take (length s - length rest)%nat s]) rest)
        s
  end.

(** [re.match(pattern, text)]: [None], or the groups of the match. *)
Definition re_match (prog : list node) (text : str) : option (list str) :=
  exec prog true [] text.

End Matcher.

(** [m.group(1)]; [None] stands for Python's [IndexError: no such group]. *)
Definition group1 (m : list str) : option str := m !! 0%nat.

End Re.

(** ** The extractor *)

Inductive level := H1 | H2 | H3.

(** The [patterns] dictionary. *)
Definition patterns (l : level) : list Re.node :=
  match l with
  | H1 => (* ^\d+\s+(.+)$ *)
      [Re.At_beginning; Re.Max_repeat1 Re.Digit; Re.Max_repeat1 Re.Space;
       Re.Group_repeat1 Re.Any; Re.At_end]
  | H2 => (* ^\d+\.\d+\s+(.+)$ *)
      [Re.At_beginning; Re.Max_repeat1 Re.Digit;
       Re.Literal Unicode.FULL_STOP; Re.Max_repeat1 Re.Digit;
       Re.Max_repeat1 Re.Space; Re.Group_repeat1 Re.Any; Re.At_end]
  | H3 => (* ^\d+\.\d+\.\d+\s+(.+)$ *)
      [Re.At_beginning; Re.Max_repeat1 Re.Digit;
       Re.Literal Unicode.FULL_STOP; Re.Max_repeat1 Re.Digit;
       Re.Literal Unicode.FULL_STOP; Re.Max_repeat1 Re.Digit;
       Re.Max_repeat1 Re.Space; Re.Group_repeat1 Re.Any; Re.At_end]
  end.

(** The exceptions the loop body can raise. *)
Inductive exn :=
| KeyError (k : str)
| IndexError.

Inductive res (A : Type) :=
| Ok (a : A)
| Raise (e : exn).
Arguments Ok {A} a.
Arguments Raise {A} e.

Global Instance res_ret : MRet res := @Ok.

Global Instance res_bind : MBind res := λ A B f r,
  match r with
  | Ok a => f a
  | Raise e => Raise e
  end.

(** The tree: level-1 label to level-2 label to level-3 label to the empty
    dictionary [{}] that no statement ever fills, kept as [()]. *)
Abbreviation tree := (gmap str (gmap str (gmap str ()))).

(** [d[k]] as an expression. *)
Definition getitem {V} (d : gmap str V) (k : str) : res V :=
  match d !! k with
  | Some v => Ok v
  | None => Raise (KeyError k)
  end.

(** [m.group(1)]. *)
Definition group (m : list str) : res str :=
  match Re.group1 m with
  | Some g => Ok g
  | None => Raise IndexError
  end.

(** The locals of the loop. *)
Record state := State {
  headings_dict : tree;
  current_h1 : option str;
  current_h2 : option str
}.

(** Truth value of a local that is [None] or a string: the string when it
    is set and not empty. *)
Definition truthy (v : option str) : option str :=
  match v with
  | Some (c :: k) => Some (c :: k)
  | _ => None
  end.

Definition initial : state :=
  {| headings_dict := ∅; current_h1 := None; current_h2 := None |}.

Section Extract.
Variable isdecimal : N → bool.

Local Abbreviation re_match := (Re.re_match isdecimal).

(** The three arms of the [if]/[elif] chain. *)
Definition on_h1 (st : state) (m : list str) : res state :=
  h1 ← group m;
  Ok {| headings_dict := <[h1 := ∅]> (headings_dict st);
        current_h1 := Some h1;
        current_h2 := current_h2 st |}.

Definition on_h2 (st : state) (k1 : str) (m : list str) : res state :=
  h2 ← group m;
  d1 ← getitem (headings_dict st) k1;
  Ok {| headings_dict := <[k1 := <[h2 := ∅]> d1]> (headings_dict st);
        current_h1 := current_h1 st;
        current_h2 := Some h2 |}.

Definition on_h3 (st : state) (k1 k2 : str) (m : list str) : res state :=
  h3 ← group m;
  d1 ← getitem (headings_dict st) k1;
  d2 ← getitem d1 k2;
  Ok {| headings_dict :=
          <[k1 := <[k2 := <[h3 := ()]> d2]> d1]> (headings_dict st);
        current_h1 := current_h1 st;
        current_h2 := current_h2 st |}.

(** One turn of the loop on the already stripped, non-empty text. *)
Definition classify (st : state) (text : str) : res state :=
  match re_match (patterns H1) text with
  | Some m => on_h1 st m
  | None =>
      match re_match (patterns H2) text, truthy (current_h1 st) with
      | Some m, Some k1 => on_h2 st k1 m
      | _, _ =>
          match re_match (patterns H3) text,
                truthy (current_h1 st), truthy (current_h2 st) with
          | Some m, Some k1, Some k2 => on_h3 st k1 k2 m
          | _, _, _ => Ok st
          end
      end
  end.

(** One turn of the loop. *)
Definition step (st : state) (paragraph : str) : res state :=
  match strip paragraph with
  | [] => Ok st
  | text => classify st text
  end.

Fixpoint loop (st : state) (paragraphs : list str) : res state :=
  match paragraphs with
  | [] => Ok st
  | p :: ps => st' ← step st p; loop st' ps
  end.

(** [extract_headings], from the paragraph texts of the loaded document. *)
Definition extract_headings (paragraphs : list str) : res tree :=
  st ← loop initial paragraphs; Ok (headings_dict st).

End Extract.

(** ** Notions the properties are stated with *)

(** The end shared by the three patterns: [\s+(.+)$]. *)
Definition heading_tail : list Re.node :=
  [Re.Max_repeat1 Re.Space; Re.Group_repeat1 Re.Any; Re.At_end].

(** What is left of a string after its leading decimal digits. *)
Fixpoint after_digits (isdecimal : N → bool) (s : str) : str :=
  match s with
  | [] => []
  | c :: s' => if isdecimal c then after_digits isdecimal s' else s
  end.

(** A label: not empty, no whitespace at either end. *)
Definition label_ok (k : str) : Prop :=
  k ≠ [] ∧
  (∀ c, head k = Some c → Unicode.isspace c = false) ∧
  (∀ c, last k = Some c → Unicode.isspace c = false).

(** The label of a paragraph that is a heading of level [l]. *)
Definition heading (isdecimal : N → bool) (l : level) (p : str) : option str :=
  m ← Re.re_match isdecimal (patterns l) (strip p); Re.group1 m.

(** The label of the level-1 heading seen last. *)
Definition last_h1 (isdecimal : N → bool) (ps : list str) : option str :=
  last (omap (heading isdecimal H1) ps).

(** The paragraphs that follow the first level-1 heading. *)
Fixpoint after_first_h1 (isdecimal : N → bool) (ps : list str) : list str :=
  match ps with
  | [] => []
  | p :: ps' =>
      match heading isdecimal H1 p with
      | Some _ => ps'
      | None => after_first_h1 isdecimal ps'
      end
  end.

(** The label of the level-2 heading seen last, those that came before any
    level-1 heading left out. *)
Definition last_h2 (isdecimal : N → bool) (ps : list str) : option str :=
  last (omap (heading isdecimal H2) (after_first_h1 isdecimal ps)).

(** A paragraph of whitespace only (the empty one included). *)
Definition blank (p : str) : Prop := forallb Unicode.isspace p = true.

Global Instance blank_dec p : Decision (blank p).
Proof. unfold blank. apply _. Defined.

(** All keys of a tree, at the three levels, are labels. *)
Definition keys_ok (d : tree) : Prop :=
  ∀ k1 d1, d !! k1 = Some d1 →
    label_ok k1 ∧
    ∀ k2 d2, d1 !! k2 = Some d2 →
      label_ok k2 ∧
      ∀ k3, is_Some (d2 !! k3) → label_ok k3.

(** What holds of the locals between two turns of the loop. *)
Definition state_ok (st : state) : Prop :=
  (∀ k, current_h1 st = Some k →
        label_ok k ∧ is_Some (headings_dict st !! k)) ∧
  (∀ k, current_h2 st = Some k → label_ok k) ∧
  keys_ok (headings_dict st).

(** The [if]/[elif] chain with its arms taken in any order: the arm of a
    level, when its condition holds, and the first arm that applies. *)
Section Order.
Variable isdecimal : N → bool.

Definition arm (l : level) (st : state) (text : str)
  : option (res state) :=
  match l with
  | H1 =>
      m ← Re.re_match isdecimal (patterns H1) text;
      Some (on_h1 st m)
  | H2 =>
      m ← Re.re_match isdecimal (patterns H2) text;
      k1 ← truthy (current_h1 st);
      Some (on_h2 st k1 m)
  | H3 =>
      m ← Re.re_match isdecimal (patterns H3) text;
      k1 ← truthy (current_h1 st);
      k2 ← truthy (current_h2 st);
      Some (on_h3 st k1 k2 m)
  end.

Fixpoint classify_in (order : list level) (st : state) (text : str)
  : res state :=
  match order with
  | [] => Ok st
  | l :: order' =>
      match arm l st text with
      | Some r => r
      | None => classify_in order' st text
      end
  end.
End Order.

(** A paragraph that is a heading of some level. *)
Definition is_heading (isdecimal : N → bool) (p : str) : Prop :=
  is_Some (heading isdecimal H1 p) ∨ is_Some (heading isdecimal H2 p) ∨
  is_Some (heading isdecimal H3 p).

Global Instance is_heading_dec isdecimal p : Decision (is_heading isdecimal p).
Proof. unfold is_heading. apply _. Defined.

(** [q] is [p] between two runs of whitespace. *)
Definition padded (p q : str) : Prop :=
  ∃ a b, Forall (λ c, Unicode.isspace c = true) a ∧
         Forall (λ c, Unicode.isspace c = true) b ∧
         q = a ++ p ++ b.

(** The number of a heading: runs of digits joined by full stops. *)
Fixpoint dotted (nums : list str) : str :=
  match nums with
  | [] => []
  | [n] => n
  | n :: nums' => n ++ Unicode.FULL_STOP :: dotted nums'
  end.

(** How many runs of digits the pattern of a level asks for. *)
Definition depth (l : level) : nat :=
  match l with
  | H1 => 1
  | H2 => 2
  | H3 => 3
  end.

(** Reading a sequence of paragraphs backwards, the paragraphs met before
    a level-1 heading is. *)
Fixpoint back_to_h1 (isdecimal : N → bool) (rps : list str) : list str :=
  match rps with
  | [] => []
  | p :: rps' =>
      match heading isdecimal H1 p with
      | Some _ => []
      | None => p :: back_to_h1 isdecimal rps'
      end
  end.

(** The paragraphs that follow the level-1 heading seen last (all of them
    when there is none). *)
Definition since_h1 (isdecimal : N → bool) (ps : list str) : list str :=
  reverse (back_to_h1 isdecimal (reverse ps)).

(** The label of the last level-2 heading that follows the level-1 heading
    seen last. *)
Definition h2_since_h1 (isdecimal : N → bool) (ps : list str) : option str :=
  last (omap (heading isdecimal H2) (since_h1 isdecimal ps)).

(** A level-3 heading after the paragraphs [ps] finds its place: no
    level-2 label is set, or a level-2 heading follows the level-1 heading
    seen last. *)
Definition h3_in_place (isdecimal : N → bool) (ps : list str) : Prop :=
  last_h2 isdecimal ps = None ∨ is_Some (h2_since_h1 isdecimal ps).

Global Instance h3_in_place_dec isdecimal ps :
  Decision (h3_in_place isdecimal ps).
Proof. unfold h3_in_place. apply _. Defined.

(** The keys of a tree satisfy [P1], [P2] and [P3], level by level. *)
Definition keys_sat (P1 P2 P3 : str → Prop) (d : tree) : Prop :=
  ∀ k1 d1, d !! k1 = Some d1 →
    P1 k1 ∧
    ∀ k2 d2, d1 !! k2 = Some d2 →
      P2 k2 ∧
      ∀ k3, is_Some (d2 !! k3) → P3 k3.

(** A string without a line feed. *)
Definition no_LF (k : str) : Prop := Forall (λ c, c ≠ Unicode.LF) k.

(** * Properties *)

(** ** Stripping *)

Lemma lstrip_head s c : head (lstrip s) = Some c → Unicode.isspace c = false.
Proof.
  induction s as [|a s IH]; simpl; [done|].
  destruct (Unicode.isspace a) eqn:Ha; [done|].
  simpl. by intros [= <-].
Qed.

Lemma lstrip_nil s :
  lstrip s = [] ↔ Forall (λ c, Unicode.isspace c = true) s.
Proof.
  induction s as [|a s IH]; simpl; [by split|].
  destruct (Unicode.isspace a) eqn:Ha.
  - rewrite IH. split; [by constructor | by inversion 1].
  - split; [done|]. inversion 1; congruence.
Qed.

Lemma lstrip_elem s c : c ∈ lstrip s → c ∈ s.
Proof.
  induction s as [|a s IH]; simpl; [done|].
  destruct (Unicode.isspace a); [|done].
  intros ?. apply elem_of_cons. right. by apply IH.
Qed.

Lemma strip_last s c : last (strip s) = Some c → Unicode.isspace c = false.
Proof.
  unfold strip, rstrip. rewrite last_reverse. apply lstrip_head.
Qed.

Lemma strip_elem s c : c ∈ strip s → c ∈ s.
Proof.
  unfold strip, rstrip. rewrite elem_of_reverse. intros H.
  apply lstrip_elem in H. rewrite elem_of_reverse in H. by apply lstrip_elem.
Qed.

(** A paragraph is stripped to the empty string exactly when it is made of
    whitespace only. *)
Lemma strip_nil s :
  strip s = [] ↔ Forall (λ c, Unicode.isspace c = true) s.
Proof.
  unfold strip, rstrip. split.
  - intros H. apply (f_equal reverse) in H.
    rewrite reverse_involutive, reverse_nil in H.
    apply lstrip_nil in H. rewrite Forall_reverse in H.
    destruct (lstrip s) as [|a t] eqn:E; [by apply lstrip_nil|].
    assert (Unicode.isspace a = false)
      by (apply (lstrip_head s); by rewrite E).
    inversion H; congruence.
  - intros H. apply lstrip_nil in H. by rewrite H.
Qed.

(** ** The matcher *)

Section MatcherFacts.
Context {A : Type} (p : N → bool) (k : str → option A).

(** The repeat fails exactly when the continuation fails after every
    non-empty run of characters of the set. *)
Lemma max_repeat1_None s :
  Re.max_repeat1 p k s = None ↔
  ∀ pre rest, s = pre ++ rest → pre ≠ [] →
              Forall (λ c, p c = true) pre → k rest = None.
Proof.
  induction s as [|c s IH]; simpl.
  - split; [|done]. intros _ pre rest E. by destruct pre.
  - destruct (p c) eqn:Hc.
    + destruct (Re.max_repeat1 p k s) as [r|] eqn:Hm.
      * split; [done|]. intros H. exfalso.
        assert (Hn : Some r = None :> option A); [|done].
        apply IH. intros pre rest -> Hne Hall.
        apply (H (c :: pre)); [done|done|by constructor].
      * split.
        -- intros Hk pre rest E Hne Hall.
           destruct pre as [|c' pre]; [done|]. simplify_eq/=.
           destruct pre as [|c'' pre]; [done|].
           inversion_clear Hall.
           by eapply (proj1 IH eq_refl (c'' :: pre)).
        -- intros H. by apply (H [c]); [done|done|repeat constructor].
    + split; [|done]. intros _ pre rest E Hne Hall.
      destruct pre as [|c' pre]; [done|]. simplify_eq/=.
      inversion_clear Hall. congruence.
Qed.

(** A successful repeat took a non-empty run of characters of the set,
    and it is the longest run after which the continuation succeeds. *)
Lemma max_repeat1_Some s r :
  Re.max_repeat1 p k s = Some r →
  ∃ pre rest, s = pre ++ rest ∧ pre ≠ [] ∧
              Forall (λ c, p c = true) pre ∧
              k rest = Some r ∧ Re.max_repeat1 p k rest = None.
Proof.
  induction s as [|c s IH]; simpl; [done|].
  destruct (p c) eqn:Hc; [|done].
  destruct (Re.max_repeat1 p k s) as [r'|] eqn:Hm.
  - intros [= ->]. destruct (IH eq_refl) as (pre & rest & -> & ? & ? & ? & ?).
    exists (c :: pre), rest. split_and!; [done|done|by constructor|done|done].
  - intros Hk. exists [c], s. split_and!; [done|done|by repeat constructor|done|done].
Qed.

(** A way to match makes the repeat succeed. *)
Lemma max_repeat1_is_Some pre rest :
  pre ≠ [] → Forall (λ c, p c = true) pre → is_Some (k rest) →
  is_Some (Re.max_repeat1 p k (pre ++ rest)).
Proof.
  intros Hne Hall [r Hr].
  destruct (Re.max_repeat1 p k (pre ++ rest)) eqn:E; [done|].
  rewrite max_repeat1_None in E.
  rewrite (E pre rest) in Hr; done.
Qed.
End MatcherFacts.

Section Patterns.
Variable isdecimal : N → bool.

Local Abbreviation exec := (Re.exec isdecimal).
Local Abbreviation re_match := (Re.re_match isdecimal).

Lemma at_end_inv s : Re.at_end s = true → s = [] ∨ s = [Unicode.LF].
Proof.
  destruct s as [|c [|??]]; simpl; [by left| |done].
  intros ->%N.eqb_eq. by right.
Qed.

(** What a match of [\s+(.+)$] looks like. *)
Lemma exec_tail s m :
  exec heading_tail false [] s = Some m →
  ∃ ws label rest,
    s = ws ++ label ++ rest ∧
    ws ≠ [] ∧ Forall (λ c, Unicode.isspace c = true) ws ∧
    label ≠ [] ∧
    Forall (λ c, Re.in_category isdecimal Re.Any c = true) label ∧
    Re.at_end rest = true ∧ m = [label] ∧
    Re.max_repeat1 Unicode.isspace
      (exec [Re.Group_repeat1 Re.Any; Re.At_end] false [])
      (label ++ rest) = None.
Proof.
  intros H. apply max_repeat1_Some in H
    as (ws & s' & -> & Hws & Hall & Hk & Hgreedy).
  pose proof Hk as Hk'.
  apply max_repeat1_Some in Hk' as (label & rest & -> & Hl & Hany & Hend & _).
  exists ws, label, rest. simpl in Hend.
  destruct (Re.at_end rest) eqn:Hr; [|done].
  split_and!; try done.
  injection Hend as <-. f_equal.
  rewrite length_app.
  replace (length label + length rest - length rest)%nat
    with (length label) by lia.
  by rewrite take_app_length.
Qed.

(** On a text that does not end in whitespace, the group of
    [\s+(.+)$] is a label. *)
Lemma exec_tail_label s m :
  exec heading_tail false [] s = Some m →
  (∀ c, last s = Some c → Unicode.isspace c = false) →
  ∃ label, m = [label] ∧ label_ok label.
Proof.
  intros H Hlast.
  apply exec_tail in H
    as (ws & label & rest & -> & _ & _ & Hl & Hany & Hend & -> & Hgreedy).
  exists label. split; [done|].
  apply at_end_inv in Hend as [->| ->].
  2:{ exfalso. specialize (Hlast Unicode.LF).
      rewrite !app_assoc, last_snoc in Hlast. by specialize (Hlast eq_refl). }
  rewrite app_nil_r in *.
  assert (Hll : ∀ c, last label = Some c → Unicode.isspace c = false).
  { intros c Hc. apply Hlast. rewrite last_app, Hc. done. }
  split_and!; [done| |done].
  intros c Hc. destruct label as [|c' l']; [done|]. injection Hc as ->.
  destruct (Unicode.isspace c) eqn:Hsp; [exfalso|done].
  destruct l' as [|c2 l2].
  { specialize (Hll c eq_refl). congruence. }
  rewrite max_repeat1_None in Hgreedy.
  specialize (Hgreedy [c] (c2 :: l2) eq_refl).
  assert (Hs : is_Some (exec [Re.Group_repeat1 Re.Any; Re.At_end]
                          false [] (c2 :: l2))).
  2:{ rewrite Hgreedy in Hs; [by destruct Hs|done|by repeat constructor]. }
  inversion_clear Hany as [|?? _ Hany'].
  rewrite <-(app_nil_r (c2 :: l2)).
  by apply (max_repeat1_is_Some (Re.in_category isdecimal Re.Any)).
Qed.

(** Items that close no group leave the groups alone: what follows them
    runs on a suffix of the text. *)
Lemma exec_prefix pre prog bos g s m :
  Forall (λ nd, ∀ k, nd ≠ Re.Group_repeat1 k) pre →
  exec (pre ++ prog) bos g s = Some m →
  ∃ bos' a b, s = a ++ b ∧ exec prog bos' g b = Some m.
Proof.
  intros Hpre. revert bos s.
  induction Hpre as [|nd pre Hnd _ IH]; intros bos s H.
  { by exists bos, [], s. }
  destruct nd as [| |c|k|k]; simpl in H.
  - destruct bos; [|done]. by apply IH in H.
  - destruct (Re.at_end s); [|done]. by apply IH in H.
  - destruct s as [|c' s']; [done|]. destruct (c' =? c)%N; [|done].
    apply IH in H as (bos' & a & b & -> & H).
    by exists bos', (c' :: a), b.
  - apply max_repeat1_Some in H as (a0 & rest & -> & _ & _ & H & _).
    apply IH in H as (bos' & a & b & -> & H).
    exists bos', (a0 ++ a), b. by rewrite app_assoc.
  - by destruct (Hnd k).
Qed.

(** Every pattern ends in [\s+(.+)$], run on a suffix of the text. *)
Lemma re_match_tail l text m :
  re_match (patterns l) text = Some m →
  ∃ a b, text = a ++ b ∧ exec heading_tail false [] b = Some m.
Proof.
  intros H. unfold Re.re_match in H.
  assert (∃ pre, patterns l = pre ++ heading_tail ∧
                 Forall (λ nd, ∀ k, nd ≠ Re.Group_repeat1 k) pre)
    as (pre & E & Hpre).
  { destruct l;
      [ exists [Re.At_beginning; Re.Max_repeat1 Re.Digit]
      | exists [Re.At_beginning; Re.Max_repeat1 Re.Digit;
                Re.Literal Unicode.FULL_STOP; Re.Max_repeat1 Re.Digit]
      | exists [Re.At_beginning; Re.Max_repeat1 Re.Digit;
                Re.Literal Unicode.FULL_STOP; Re.Max_repeat1 Re.Digit;
                Re.Literal Unicode.FULL_STOP; Re.Max_repeat1 Re.Digit] ];
      (split; [reflexivity | by repeat constructor]). }
  rewrite E in H. apply (exec_prefix _ _ _ _ _ _ Hpre) in H
    as (bos' & a & b & -> & H).
  by exists a, b.
Qed.

(** On a text that does not end in whitespace, a match of any of the
    three patterns has exactly one group, and it is a label. *)
Lemma re_match_label l text m :
  re_match (patterns l) text = Some m →
  (∀ c, last text = Some c → Unicode.isspace c = false) →
  ∃ label, m = [label] ∧ label_ok label.
Proof.
  intros H Hlast. apply re_match_tail in H as (a & b & -> & H).
  apply exec_tail_label in H; [done|].
  intros c Hc. apply Hlast. by rewrite last_app, Hc.
Qed.

(** *** The three patterns exclude one another *)

Lemma after_digits_app pre c r :
  Forall (λ c, isdecimal c = true) pre → isdecimal c = false →
  after_digits isdecimal (pre ++ c :: r) = c :: r.
Proof.
  intros Hpre Hc. induction Hpre as [|d pre Hd _ IH]; simpl.
  - by rewrite Hc.
  - by rewrite Hd.
Qed.

(** When what follows [\d+] can only start on a non-digit, the digits
    taken are all the leading digits. *)
Lemma digits_then (k : str → option (list str)) s m :
  (∀ rest, is_Some (k rest) → ∃ c r, rest = c :: r ∧ isdecimal c = false) →
  Re.max_repeat1 (Re.in_category isdecimal Re.Digit) k s = Some m →
  k (after_digits isdecimal s) = Some m.
Proof.
  intros Hk H.
  apply max_repeat1_Some in H as (pre & rest & -> & _ & Hpre & H & _).
  destruct (Hk rest) as (c & r & -> & Hc); [by rewrite H|].
  by rewrite after_digits_app.
Qed.

(** Two facts of the Unicode database about the table behind [\d]: among
    the ASCII characters the decimal digits are ['0'] to ['9'], so the full
    stop is none; and no decimal digit is whitespace (category Nd against
    category Zs and the control characters). *)
Hypothesis isdecimal_ascii :
  ∀ c, (c < 128)%N → isdecimal c = Unicode.ascii_isdecimal c.
Hypothesis isdecimal_not_space :
  ∀ c, isdecimal c = true → Unicode.isspace c = false.

Lemma tail_starts s :
  is_Some (exec heading_tail false [] s) →
  ∃ c r, s = c :: r ∧ isdecimal c = false.
Proof.
  intros [m H]. apply exec_tail in H as (ws & ? & ? & -> & Hne & Hws & _).
  destruct ws as [|w ws]; [done|]. inversion_clear Hws as [|?? Hw _].
  exists w, (ws ++ x ++ x0). split; [done|].
  destruct (isdecimal w) eqn:E; [|done].
  apply isdecimal_not_space in E. congruence.
Qed.

Lemma tail_not_full_stop r :
  exec heading_tail false [] (Unicode.FULL_STOP :: r) = None.
Proof. reflexivity. Qed.

Lemma literal_starts prog s :
  is_Some (exec (Re.Literal Unicode.FULL_STOP :: prog) false [] s) →
  ∃ c r, s = c :: r ∧ isdecimal c = false.
Proof.
  intros [m H]. simpl in H. destruct s as [|c r]; [done|].
  destruct (c =? Unicode.FULL_STOP)%N eqn:E; [|done].
  apply N.eqb_eq in E as ->. exists Unicode.FULL_STOP, r. split; [done|].
  by rewrite isdecimal_ascii.
Qed.

Lemma literal_inv prog s m :
  exec (Re.Literal Unicode.FULL_STOP :: prog) false [] s = Some m →
  ∃ r, s = Unicode.FULL_STOP :: r ∧ exec prog false [] r = Some m.
Proof.
  simpl. destruct s as [|c r]; [done|].
  destruct (c =? Unicode.FULL_STOP)%N eqn:E; [|done].
  apply N.eqb_eq in E as ->. by exists r.
Qed.

Lemma exec_digits prog bos g s m :
  (∀ rest, is_Some (exec prog false g rest) →
           ∃ c r, rest = c :: r ∧ isdecimal c = false) →
  exec (Re.Max_repeat1 Re.Digit :: prog) bos g s = Some m →
  exec prog false g (after_digits isdecimal s) = Some m.
Proof. intros Hk H. by apply (digits_then (exec prog false g)). Qed.

(** The normal forms of the three matches. *)
Lemma H1_shape text m :
  re_match (patterns H1) text = Some m →
  exec heading_tail false [] (after_digits isdecimal text) = Some m.
Proof.
  intros H. change (exec (Re.Max_repeat1 Re.Digit :: heading_tail)
                      true [] text = Some m) in H.
  by apply exec_digits in H; [|apply tail_starts].
Qed.

Lemma H2_shape text m :
  re_match (patterns H2) text = Some m →
  ∃ r, after_digits isdecimal text = Unicode.FULL_STOP :: r ∧
       exec heading_tail false [] (after_digits isdecimal r) = Some m.
Proof.
  intros H.
  change (exec (Re.Max_repeat1 Re.Digit :: Re.Literal Unicode.FULL_STOP ::
                Re.Max_repeat1 Re.Digit :: heading_tail)
            true [] text = Some m) in H.
  apply exec_digits in H; [|apply literal_starts].
  apply literal_inv in H as (r & -> & H). exists r. split; [done|].
  by apply exec_digits in H; [|apply tail_starts].
Qed.

Lemma H3_shape text m :
  re_match (patterns H3) text = Some m →
  ∃ r r', after_digits isdecimal text = Unicode.FULL_STOP :: r ∧
          after_digits isdecimal r = Unicode.FULL_STOP :: r' ∧
          exec heading_tail false [] (after_digits isdecimal r') = Some m.
Proof.
  intros H.
  change (exec (Re.Max_repeat1 Re.Digit :: Re.Literal Unicode.FULL_STOP ::
                Re.Max_repeat1 Re.Digit :: Re.Literal Unicode.FULL_STOP ::
                Re.Max_repeat1 Re.Digit :: heading_tail)
            true [] text = Some m) in H.
  apply exec_digits in H; [|apply literal_starts].
  apply literal_inv in H as (r & -> & H). exists r.
  apply exec_digits in H; [|apply literal_starts].
  apply literal_inv in H as (r' & -> & H). exists r'. split_and!; [done..|].
  by apply exec_digits in H; [|apply tail_starts].
Qed.

(** No text matches two of the patterns. *)
Lemma patterns_exclusive l1 l2 text :
  is_Some (re_match (patterns l1) text) →
  is_Some (re_match (patterns l2) text) →
  l1 = l2.
Proof.
  intros [m1 E1] [m2 E2].
  destruct l1, l2; try done; exfalso;
    repeat match goal with
      | H : re_match (patterns H1) _ = Some _ |- _ => apply H1_shape in H
      | H : re_match (patterns H2) _ = Some _ |- _ =>
          apply H2_shape in H as (? & ? & H)
      | H : re_match (patterns H3) _ = Some _ |- _ =>
          apply H3_shape in H as (? & ? & ? & ? & H)
      end;
    repeat match goal with
      | H : after_digits _ ?s = _,
        H' : exec _ _ _ (after_digits _ ?s) = _ |- _ => rewrite H in H'
      | H : after_digits _ ?s = _,
        H' : after_digits _ ?s = _ |- _ => rewrite H in H'; simplify_eq
      | H : exec heading_tail false [] (Unicode.FULL_STOP :: _) = Some _
        |- _ => by rewrite tail_not_full_stop in H
      end.
Qed.
End Patterns.

(** ** One turn of the loop *)

Section Step.
Variable isdecimal : N → bool.

Local Abbreviation re_match := (Re.re_match isdecimal).

Lemma re_match_nil l : re_match (patterns l) [] = None.
Proof. by destruct l. Qed.

(** A match on the stripped text of a paragraph carries one label. *)
Lemma strip_match_label l p m :
  re_match (patterns l) (strip p) = Some m →
  ∃ label, m = [label] ∧ label_ok label.
Proof. intros H. eapply re_match_label; [done|]. apply strip_last. Qed.

Lemma truthy_label v k : truthy v = Some k → v = Some k ∧ k ≠ [].
Proof. destruct v as [[|??]|]; simpl; naive_solver. Qed.

Lemma truthy_ok k : label_ok k → truthy (Some k) = Some k.
Proof. intros [? _]. by destruct k. Qed.

(** A paragraph that matches nothing is passed over. *)
Lemma step_none st p :
  (∀ l, re_match (patterns l) (strip p) = None) → step isdecimal st p = Ok st.
Proof.
  intros H. unfold step, classify.
  destruct (strip p) eqn:E; [done|]. by rewrite !H.
Qed.

(** A blank paragraph is passed over. *)
Lemma step_blank st p : blank p → step isdecimal st p = Ok st.
Proof.
  intros H. unfold step.
  replace (strip p) with (@nil N); [done|].
  symmetry. apply strip_nil, Forall_forall. intros c Hc.
  unfold blank in H. rewrite forallb_forall in H.
  apply H. by apply list_elem_of_In.
Qed.

(** A level-1 heading. *)
Lemma step_h1 st p m :
  re_match (patterns H1) (strip p) = Some m →
  ∃ l, m = [l] ∧ label_ok l ∧
    step isdecimal st p = Ok {| headings_dict := <[l := ∅]> (headings_dict st);
                      current_h1 := Some l;
                      current_h2 := current_h2 st |}.
Proof.
  intros H. destruct (strip_match_label _ _ _ H) as (l & -> & Hl).
  exists l. split_and!; [done..|].
  unfold step, classify.
  destruct (strip p) eqn:E; [by rewrite re_match_nil in H|].
  by rewrite H.
Qed.

(** *** Labels stay labels *)

Lemma keys_ok_empty : keys_ok ∅.
Proof. intros k1 d1 H. by rewrite lookup_empty in H. Qed.

Lemma keys_ok_insert1 (d : tree) l :
  keys_ok d → label_ok l → keys_ok (<[l := ∅]> d).
Proof.
  intros Hd Hl k1 d1. rewrite lookup_insert.
  case_decide as E; [|by apply Hd].
  intros [= <-]. subst k1. split; [done|].
  intros k2 d2 H. by rewrite lookup_empty in H.
Qed.

Lemma keys_ok_insert2 (d : tree) k1 d1 l :
  keys_ok d → d !! k1 = Some d1 → label_ok l →
  keys_ok (<[k1 := <[l := ∅]> d1]> d).
Proof.
  intros Hd H1 Hl k1' d1'. rewrite lookup_insert.
  case_decide as E; [|by apply Hd].
  intros [= <-]. subst k1'. destruct (Hd _ _ H1) as [Hk1 Hd1].
  split; [done|]. intros k2 d2. rewrite lookup_insert.
  case_decide as E2; [|by apply Hd1].
  intros [= <-]. subst k2. split; [done|].
  intros k3 [? H]. by rewrite lookup_empty in H.
Qed.

Lemma keys_ok_insert3 (d : tree) k1 d1 k2 d2 l :
  keys_ok d → d !! k1 = Some d1 → d1 !! k2 = Some d2 → label_ok l →
  keys_ok (<[k1 := <[k2 := <[l := ()]> d2]> d1]> d).
Proof.
  intros Hd H1 H2 Hl k1' d1'. rewrite lookup_insert.
  case_decide as E; [|by apply Hd].
  intros [= <-]. subst k1'. destruct (Hd _ _ H1) as [Hk1 Hd1].
  split; [done|]. intros k2' d2'. rewrite lookup_insert.
  case_decide as E2; [|by apply Hd1].
  intros [= <-]. subst k2'. destruct (Hd1 _ _ H2) as [Hk2 Hd2].
  split; [done|]. intros k3. rewrite lookup_insert.
  case_decide as E3; [by subst|by apply Hd2].
Qed.

Lemma initial_ok : state_ok initial.
Proof. split_and!; [done|done|apply keys_ok_empty]. Qed.

Lemma getitem_Ok {V} (d : gmap str V) k v :
  getitem d k = Ok v ↔ d !! k = Some v.
Proof. unfold getitem. destruct (d !! k); naive_solver. Qed.

Lemma step_ok st p st' :
  state_ok st → step isdecimal st p = Ok st' → state_ok st'.
Proof.
  intros (Hh1 & Hh2 & Hd). unfold step, classify.
  destruct (strip p) as [|c t] eqn:E; [by intros [= <-]|]. rewrite <-E.
  destruct (re_match (patterns H1) (strip p)) as [m|] eqn:M1.
  { destruct (strip_match_label _ _ _ M1) as (l & -> & Hl).
    intros [= <-]. split_and!; simpl.
    - intros k [= <-]. split; [done|]. by rewrite lookup_insert_eq.
    - done.
    - by apply keys_ok_insert1. }
  destruct (re_match (patterns H2) (strip p)) as [m|] eqn:M2,
           (truthy (current_h1 st)) as [k1|] eqn:T1.
  { destruct (strip_match_label _ _ _ M2) as (l & -> & Hl).
    apply truthy_label in T1 as [T1 _].
    destruct (Hh1 _ T1) as [Hk1 [d1 Hd1]].
    unfold on_h2. simpl. rewrite (proj2 (getitem_Ok _ _ _) Hd1). simpl.
    intros [= <-]. split_and!; simpl.
    - intros k Hk. rewrite T1 in Hk. injection Hk as <-.
      split; [done|]. by rewrite lookup_insert_eq.
    - by intros k [= <-].
    - by apply keys_ok_insert2. }
  all: destruct (re_match (patterns H3) (strip p)) as [m'|] eqn:M3;
    try (rewrite ?T1; intros [= <-]; by split_and!).
  all: try (destruct (truthy (current_h2 st)) as [k2|] eqn:T2;
            [|intros [= <-]; by split_and!]).
  destruct (strip_match_label _ _ _ M3) as (l & -> & Hl).
  apply truthy_label in T1 as [T1 _]. apply truthy_label in T2 as [T2 _].
  destruct (Hh1 _ T1) as [Hk1 [d1 Hd1]].
  unfold on_h3. simpl. rewrite (proj2 (getitem_Ok _ _ _) Hd1). simpl.
  destruct (getitem d1 k2) as [d2|] eqn:G2; [|done]. simpl.
  apply getitem_Ok in G2.
  intros [= <-]. split_and!; simpl.
  - intros k Hk. rewrite T1 in Hk. injection Hk as <-.
    split; [done|]. by rewrite lookup_insert_eq.
  - done.
  - by apply keys_ok_insert3.
Qed.

(** *** The loop *)

Lemma loop_app st ps qs :
  loop isdecimal st (ps ++ qs) =
  st' ← loop isdecimal st ps; loop isdecimal st' qs.
Proof.
  revert st. induction ps as [|p ps IH]; intros st; simpl; [done|].
  destruct (step isdecimal st p) as [st1|e]; simpl; [apply IH|done].
Qed.

Lemma loop_snoc st ps p st' :
  loop isdecimal st (ps ++ [p]) = Ok st' ↔
  ∃ st1, loop isdecimal st ps = Ok st1 ∧ step isdecimal st1 p = Ok st'.
Proof.
  rewrite loop_app. destruct (loop isdecimal st ps) as [st1|e]; simpl.
  - split.
    + intros H. exists st1. split; [done|].
      by destruct (step isdecimal st1 p).
    + intros (st2 & [= <-] & H). by rewrite H.
  - split; [done|]. by intros (st2 & ? & _).
Qed.

Lemma loop_ok st ps st' :
  state_ok st → loop isdecimal st ps = Ok st' → state_ok st'.
Proof.
  revert st. induction ps as [|p ps IH]; intros st Hst; simpl.
  - by intros [= <-].
  - destruct (step isdecimal st p) as [st1|e] eqn:E; simpl; [|done].
    apply IH. by eapply step_ok.
Qed.

Lemma extract_headings_Ok ps d :
  extract_headings isdecimal ps = Ok d ↔
  ∃ st, loop isdecimal initial ps = Ok st ∧ headings_dict st = d.
Proof.
  unfold extract_headings.
  destruct (loop isdecimal initial ps) as [st|e]; simpl; split.
  - intros [= <-]. by exists st.
  - by intros (? & [= <-] & <-).
  - done.
  - by intros (? & ? & _).
Qed.

(** *** Paragraphs that are not headings *)

Lemma loop_no_heading st ps :
  Forall (λ p, ∀ l, re_match (patterns l) (strip p) = None) ps →
  loop isdecimal st ps = Ok st.
Proof.
  induction 1 as [|p ps Hp _ IH]; simpl; [done|].
  by rewrite step_none.
Qed.

(** C4: when the stripped text of no paragraph matches any of the three
    patterns, the extractor returns the empty mapping. *)
Theorem extract_headings_no_heading ps :
  Forall (λ p, ∀ l, re_match (patterns l) (strip p) = None) ps →
  extract_headings isdecimal ps = Ok ∅.
Proof.
  intros H. unfold extract_headings. by rewrite loop_no_heading.
Qed.

Lemma loop_filter_blank st ps :
  loop isdecimal st (filter (λ p, ¬ blank p) ps) = loop isdecimal st ps.
Proof.
  revert st. induction ps as [|p ps IH]; intros st; [done|].
  rewrite filter_cons. destruct (decide (¬ blank p)) as [Hp|Hp]; simpl.
  - destruct (step isdecimal st p); simpl; [apply IH|done].
  - apply dec_stable in Hp. rewrite step_blank by done. apply IH.
Qed.

(** C9: blank and whitespace-only paragraphs do not count: the result on
    a sequence of paragraphs is the result on the sequence with those
    paragraphs deleted, whether a mapping or an exception. *)
Theorem extract_headings_blank ps :
  extract_headings isdecimal (filter (λ p, ¬ blank p) ps) =
  extract_headings isdecimal ps.
Proof. unfold extract_headings. by rewrite loop_filter_blank. Qed.

(** C10: every key of a returned mapping, at each of the three levels, is
    a label: a non-empty string that neither starts nor ends with a
    whitespace character. *)
Theorem extract_headings_keys ps d :
  extract_headings isdecimal ps = Ok d → keys_ok d.
Proof.
  intros (st & H & <-)%extract_headings_Ok.
  by apply (loop_ok initial ps st initial_ok).
Qed.
End Step.

(** ** Only the digits of the text matter *)

Section Ext.
Variables f f' : N → bool.

Lemma max_repeat1_ext {A} (p p' : N → bool) (k k' : str → option A) s :
  (∀ c, c ∈ s → p c = p' c) →
  (∀ rest, rest `suffix_of` s → k rest = k' rest) →
  Re.max_repeat1 p k s = Re.max_repeat1 p' k' s.
Proof.
  induction s as [|c s IH]; intros Hp Hk; simpl; [done|].
  rewrite <-(Hp c) by apply list_elem_of_here.
  destruct (p c); [|done].
  rewrite IH, Hk; [done|by apply suffix_cons_r| |].
  - intros c' Hc'. apply Hp. by apply list_elem_of_further.
  - intros rest Hr. apply Hk. by apply suffix_cons_r.
Qed.

Lemma suffix_elem (rest s : str) c : rest `suffix_of` s → c ∈ rest → c ∈ s.
Proof. intros [pre ->] ?. apply elem_of_app. by right. Qed.

Lemma exec_ext prog bos g s :
  (∀ c, c ∈ s → f c = f' c) →
  Re.exec f prog bos g s = Re.exec f' prog bos g s.
Proof.
  revert bos g s.
  induction prog as [|nd prog IH]; intros bos g s Hs; [done|].
  assert (Hcat : ∀ k c, c ∈ s →
            Re.in_category f k c = Re.in_category f' k c).
  { intros [] c Hc; simpl; [by apply Hs|done|done]. }
  destruct nd as [| |c|k|k]; simpl.
  - destruct bos; [by apply IH|done].
  - destruct (Re.at_end s); [by apply IH|done].
  - destruct s as [|c' s']; [done|]. destruct (c' =? c)%N; [|done].
    apply IH. intros c0 Hc0. apply Hs. by apply list_elem_of_further.
  - apply max_repeat1_ext; [by apply Hcat|].
    intros rest Hr. apply IH. intros c Hc. apply Hs.
    by eapply suffix_elem.
  - apply max_repeat1_ext; [by apply Hcat|].
    intros rest Hr. apply IH. intros c Hc. apply Hs.
    by eapply suffix_elem.
Qed.

Lemma step_ext st p :
  (∀ c, c ∈ p → f c = f' c) → step f st p = step f' st p.
Proof.
  intros Hp. unfold step, classify, Re.re_match.
  destruct (strip p) as [|c t] eqn:E; [done|]. rewrite <-E.
  by rewrite !(exec_ext _ _ _ (strip p))
    by (intros c0 Hc0; by apply Hp, strip_elem).
Qed.

Lemma loop_ext st ps :
  Forall (λ p, ∀ c, c ∈ p → f c = f' c) ps → loop f st ps = loop f' st ps.
Proof.
  intros H. revert st. induction H as [|p ps Hp _ IH]; intros st; [done|].
  simpl. rewrite step_ext by done.
  destruct (step f' st p); simpl; [apply IH|done].
Qed.

Lemma heading_ext l p :
  (∀ c, c ∈ p → f c = f' c) → heading f l p = heading f' l p.
Proof.
  intros Hp. unfold heading, Re.re_match.
  by rewrite (exec_ext _ _ _ (strip p))
    by (intros c0 Hc0; by apply Hp, strip_elem).
Qed.
End Ext.

(** ** Headings and the locals of the loop *)

Section Labels.
Variable isdecimal : N → bool.

Local Abbreviation re_match := (Re.re_match isdecimal).

Lemma heading_Some l p lab :
  heading isdecimal l p = Some lab ↔
  re_match (patterns l) (strip p) = Some [lab].
Proof.
  unfold heading. split.
  - destruct (re_match (patterns l) (strip p)) as [m|] eqn:E; [|done].
    destruct (strip_match_label _ _ _ _ E) as (l' & -> & _).
    by intros [= ->].
  - by intros ->.
Qed.

Lemma heading_None l p :
  heading isdecimal l p = None ↔ re_match (patterns l) (strip p) = None.
Proof.
  unfold heading. split; [|by intros ->].
  destruct (re_match (patterns l) (strip p)) as [m|] eqn:E; [|done].
  by destruct (strip_match_label _ _ _ _ E) as (l' & -> & _).
Qed.

Lemma last_h1_snoc ps p :
  last_h1 isdecimal (ps ++ [p]) =
  match heading isdecimal H1 p with
  | Some l => Some l
  | None => last_h1 isdecimal ps
  end.
Proof.
  unfold last_h1. rewrite omap_app. simpl.
  destruct (heading isdecimal H1 p); simpl.
  - apply last_snoc.
  - by rewrite app_nil_r.
Qed.

Lemma last_h1_None ps :
  last_h1 isdecimal ps = None → after_first_h1 isdecimal ps = [].
Proof.
  unfold last_h1. induction ps as [|q ps IH]; simpl; [done|].
  destruct (heading isdecimal H1 q); simpl; [|done].
  rewrite last_cons. by destruct (last _).
Qed.

Lemma after_first_h1_snoc ps p :
  after_first_h1 isdecimal (ps ++ [p]) =
  match last_h1 isdecimal ps with
  | Some _ => after_first_h1 isdecimal ps ++ [p]
  | None => []
  end.
Proof.
  unfold last_h1. induction ps as [|q ps IH]; simpl.
  - by destruct (heading isdecimal H1 p).
  - destruct (heading isdecimal H1 q); simpl; [|done].
    rewrite last_cons. by destruct (last _).
Qed.

Lemma last_h2_snoc ps p :
  last_h2 isdecimal (ps ++ [p]) =
  match last_h1 isdecimal ps, heading isdecimal H2 p with
  | Some _, Some l => Some l
  | _, _ => last_h2 isdecimal ps
  end.
Proof.
  unfold last_h2. rewrite after_first_h1_snoc.
  destruct (last_h1 isdecimal ps) eqn:E.
  - rewrite omap_app. simpl. destruct (heading isdecimal H2 p); simpl.
    + apply last_snoc.
    + by rewrite app_nil_r.
  - by rewrite last_h1_None.
Qed.
End Labels.

(** ** The heading tree *)

Section Headings.
Variable isdecimal : N → bool.

(** The two facts of the Unicode database, as above. *)
Hypothesis isdecimal_ascii :
  ∀ c, (c < 128)%N → isdecimal c = Unicode.ascii_isdecimal c.
Hypothesis isdecimal_not_space :
  ∀ c, isdecimal c = true → Unicode.isspace c = false.

Local Abbreviation re_match := (Re.re_match isdecimal).

Lemma exclusive l1 l2 text m :
  re_match (patterns l1) text = Some m → l1 ≠ l2 →
  re_match (patterns l2) text = None.
Proof.
  intros H Hne. destruct (re_match (patterns l2) text) eqn:E; [|done].
  destruct Hne.
  by eapply (patterns_exclusive isdecimal isdecimal_ascii
               isdecimal_not_space l1 l2 text).
Qed.

Lemma heading_exclusive l1 l2 p lab :
  heading isdecimal l1 p = Some lab → l1 ≠ l2 →
  heading isdecimal l2 p = None.
Proof.
  intros H%heading_Some Hne. apply heading_None. by eapply exclusive.
Qed.

(** A level-2 heading. *)
Lemma step_h2 st p l :
  heading isdecimal H2 p = Some l →
  step isdecimal st p =
  match truthy (current_h1 st) with
  | Some k1 =>
      d1 ← getitem (headings_dict st) k1;
      Ok {| headings_dict := <[k1 := <[l := ∅]> d1]> (headings_dict st);
            current_h1 := current_h1 st;
            current_h2 := Some l |}
  | None => Ok st
  end.
Proof.
  intros H%heading_Some. unfold step, classify.
  destruct (strip p) as [|c t] eqn:E; [by rewrite re_match_nil in H|].
  rewrite <-E in H |- *. rewrite (exclusive H2 H1 _ _ H), H by done.
  destruct (truthy (current_h1 st)); [done|].
  by destruct (re_match (patterns H3) (strip p)).
Qed.

(** A level-3 heading. *)
Lemma step_h3 st p l :
  heading isdecimal H3 p = Some l →
  step isdecimal st p =
  match truthy (current_h1 st), truthy (current_h2 st) with
  | Some k1, Some k2 =>
      d1 ← getitem (headings_dict st) k1;
      d2 ← getitem d1 k2;
      Ok {| headings_dict :=
              <[k1 := <[k2 := <[l := ()]> d2]> d1]> (headings_dict st);
            current_h1 := current_h1 st;
            current_h2 := current_h2 st |}
  | _, _ => Ok st
  end.
Proof.
  intros H%heading_Some. unfold step, classify.
  destruct (strip p) as [|c t] eqn:E; [by rewrite re_match_nil in H|].
  rewrite <-E in H |- *.
  rewrite (exclusive H3 H1 _ _ H), (exclusive H3 H2 _ _ H), H by done.
  by destruct (truthy (current_h1 st)), (truthy (current_h2 st)).
Qed.

(** A level-1 heading, by its label. *)
Lemma step_h1' st p l :
  heading isdecimal H1 p = Some l →
  step isdecimal st p =
  Ok {| headings_dict := <[l := ∅]> (headings_dict st);
        current_h1 := Some l;
        current_h2 := current_h2 st |}.
Proof.
  intros H%heading_Some.
  by destruct (step_h1 isdecimal st p _ H) as (l' & [= <-] & _ & ->).
Qed.

(** Every paragraph is a heading of one level, or of none. *)
Lemma heading_cases p :
  (∃ l, heading isdecimal H1 p = Some l) ∨
  (∃ l, heading isdecimal H2 p = Some l ∧ heading isdecimal H1 p = None) ∨
  (∃ l, heading isdecimal H3 p = Some l ∧ heading isdecimal H1 p = None
        ∧ heading isdecimal H2 p = None) ∨
  (∀ l, heading isdecimal l p = None).
Proof.
  destruct (heading isdecimal H1 p) as [l1|] eqn:E1; [by eauto|].
  destruct (heading isdecimal H2 p) as [l2|] eqn:E2; [by eauto 6|].
  destruct (heading isdecimal H3 p) as [l3|] eqn:E3; [by eauto 8|].
  do 3 right. by intros [].
Qed.

(** What one turn of the loop does to the two labels. *)
Lemma step_locals st p st' :
  state_ok st → step isdecimal st p = Ok st' →
  current_h1 st' =
    match heading isdecimal H1 p with
    | Some l => Some l
    | None => current_h1 st
    end ∧
  current_h2 st' =
    match current_h1 st, heading isdecimal H2 p with
    | Some _, Some l => Some l
    | _, _ => current_h2 st
    end.
Proof.
  intros (Hh1 & Hh2 & Hd).
  destruct (heading_cases p)
    as [[l E1]|[(l & E2 & E1)|[(l & E3 & E1 & E2)|E]]].
  - rewrite (step_h1' _ _ _ E1), E1,
      (heading_exclusive H1 H2 _ _ E1) by done.
    intros [= <-]. simpl. split; [done|]. by destruct (current_h1 st).
  - rewrite (step_h2 _ _ _ E2), E1, E2.
    destruct (current_h1 st) as [k1|] eqn:C1; [|by intros [= <-]].
    destruct (Hh1 k1 eq_refl) as [Hk1 [d1 Hd1]].
    rewrite (truthy_ok _ Hk1). simpl.
    rewrite (proj2 (getitem_Ok _ _ _) Hd1). simpl. by intros [= <-].
  - rewrite (step_h3 _ _ _ E3), E1, E2.
    assert (match current_h1 st with
            | Some _ | _ => current_h2 st
            end = current_h2 st) as -> by (by destruct (current_h1 st)).
    destruct (truthy (current_h1 st)) as [k1|]; [|by intros [= <-]].
    destruct (truthy (current_h2 st)) as [k2|]; [|by intros [= <-]].
    destruct (getitem (headings_dict st) k1) as [d1|]; [|done]. simpl.
    destruct (getitem d1 k2) as [d2|]; [|done]. simpl. by intros [= <-].
  - rewrite step_none by (intros l; apply heading_None, E).
    rewrite !E. intros [= <-]. split; [done|]. by destruct (current_h1 st).
Qed.

(** The only exception of a turn of the loop: a level-3 heading, both
    labels set, and no entry for the level-2 label under the level-1
    label. *)
Lemma step_raises st p e :
  state_ok st → step isdecimal st p = Raise e →
  ∃ l k1 k2 d1,
    heading isdecimal H3 p = Some l ∧
    current_h1 st = Some k1 ∧ current_h2 st = Some k2 ∧
    headings_dict st !! k1 = Some d1 ∧ d1 !! k2 = None ∧
    e = KeyError k2.
Proof.
  intros (Hh1 & Hh2 & Hd).
  destruct (heading_cases p)
    as [[l E1]|[(l & E2 & E1)|[(l & E3 & E1 & E2)|E]]].
  - by rewrite (step_h1' _ _ _ E1).
  - rewrite (step_h2 _ _ _ E2).
    destruct (current_h1 st) as [k1|] eqn:C1; [|done].
    destruct (Hh1 k1 eq_refl) as [Hk1 [d1 Hd1]].
    rewrite (truthy_ok _ Hk1). simpl.
    by rewrite (proj2 (getitem_Ok _ _ _) Hd1).
  - rewrite (step_h3 _ _ _ E3).
    destruct (current_h1 st) as [k1|] eqn:C1; [|done].
    destruct (Hh1 k1 eq_refl) as [Hk1 [d1 Hd1]].
    rewrite (truthy_ok _ Hk1).
    destruct (current_h2 st) as [k2|] eqn:C2; [|done].
    rewrite (truthy_ok _ (Hh2 k2 eq_refl)). simpl.
    rewrite (proj2 (getitem_Ok _ _ _) Hd1). simpl.
    unfold getitem. destruct (d1 !! k2) as [d2|] eqn:Hd2; [done|].
    simpl. intros [= <-]. by exists l, k1, k2, d1.
  - by rewrite step_none by (intros l; apply heading_None, E).
Qed.

(** The two labels are those of the headings seen last. *)
Lemma loop_locals ps st :
  loop isdecimal initial ps = Ok st →
  current_h1 st = last_h1 isdecimal ps ∧
  current_h2 st = last_h2 isdecimal ps.
Proof.
  revert st. induction ps as [|p ps IH] using rev_ind; intros st.
  { by intros [= <-]. }
  intros (st1 & Hl & Hs)%loop_snoc.
  destruct (IH _ Hl) as [I1 I2].
  pose proof (loop_ok _ _ _ _ initial_ok Hl) as Hok.
  destruct (step_locals _ _ _ Hok Hs) as [-> ->].
  by rewrite last_h1_snoc, last_h2_snoc, I1, I2.
Qed.

(** *** Running the extractor on ASCII paragraphs *)

Lemma loop_ascii st ps :
  forallb (forallb (λ c, c <? 128)%N) ps = true →
  loop isdecimal st ps = loop Unicode.ascii_isdecimal st ps.
Proof.
  intros H. apply loop_ext, Forall_forall. intros p Hp c Hc.
  apply isdecimal_ascii, N.ltb_lt.
  rewrite forallb_forall in H. apply list_elem_of_In, H in Hp.
  rewrite forallb_forall in Hp. by apply Hp, list_elem_of_In.
Qed.

Lemma extract_headings_ascii ps :
  forallb (forallb (λ c, c <? 128)%N) ps = true →
  extract_headings isdecimal ps =
  extract_headings Unicode.ascii_isdecimal ps.
Proof. intros H. unfold extract_headings. by rewrite loop_ascii. Qed.

(** *** The defect: a level-2 label that outlives its level-1 section *)

(** C1: the extractor does raise.  After "1 A", "1.1 B" and "2 C" the
    level-2 label is still "B", of the section "A"; the level-3 heading
    "2.1.1 D" then subscripts the entry of "C" with "B", and the
    subscript raises [KeyError]. *)
Theorem extract_headings_stale_h2_raises :
  extract_headings isdecimal
    [u "1 A"; u "1.1 B"; u "2 C"; u "2.1.1 D"] =
  Raise (KeyError (u "B")).
Proof. by rewrite extract_headings_ascii. Qed.

(** *** Where the entries go *)

(** C2: with [st] the locals after the paragraphs [ps], the two labels
    are those of the level-1 and level-2 headings seen last.  A level-2
    heading is dropped when no level-1 heading was seen, and otherwise
    its entry goes under the level-1 heading seen last and nowhere else.
    A level-3 heading is dropped when no level-1 or no level-2 heading
    was seen; otherwise its entry goes under the pair seen last and
    nowhere else (and when that level-1 entry has no such level-2 key,
    nothing is inserted: the subscript raises). *)
Theorem insert_under_last_seen ps st p :
  loop isdecimal initial ps = Ok st →
  current_h1 st = last_h1 isdecimal ps ∧
  current_h2 st = last_h2 isdecimal ps ∧
  (∀ l, heading isdecimal H2 p = Some l →
     match last_h1 isdecimal ps with
     | None => step isdecimal st p = Ok st
     | Some k1 =>
         ∃ d1, headings_dict st !! k1 = Some d1 ∧
           step isdecimal st p =
           Ok {| headings_dict :=
                   <[k1 := <[l := ∅]> d1]> (headings_dict st);
                 current_h1 := Some k1;
                 current_h2 := Some l |}
     end) ∧
  (∀ l, heading isdecimal H3 p = Some l →
     match last_h1 isdecimal ps, last_h2 isdecimal ps with
     | Some k1, Some k2 =>
         ∃ d1, headings_dict st !! k1 = Some d1 ∧
           match d1 !! k2 with
           | Some d2 =>
               step isdecimal st p =
               Ok {| headings_dict :=
                       <[k1 := <[k2 := <[l := ()]> d2]> d1]>
                         (headings_dict st);
                     current_h1 := Some k1;
                     current_h2 := Some k2 |}
           | None => step isdecimal st p = Raise (KeyError k2)
           end
     | _, _ => step isdecimal st p = Ok st
     end).
Proof.
  intros Hl. destruct (loop_locals _ _ Hl) as [I1 I2].
  destruct (loop_ok _ _ _ _ initial_ok Hl) as (Hh1 & Hh2 & Hd).
  split_and!; [done|done| |].
  - intros l E. rewrite (step_h2 _ _ _ E), <-I1.
    destruct (current_h1 st) as [k1|] eqn:C1; [|done].
    destruct (Hh1 k1 eq_refl) as [Hk1 [d1 Hd1]].
    rewrite (truthy_ok _ Hk1). exists d1. split; [done|].
    simpl. by rewrite (proj2 (getitem_Ok _ _ _) Hd1).
  - intros l E. rewrite (step_h3 _ _ _ E), <-I1, <-I2.
    destruct (current_h1 st) as [k1|] eqn:C1; [|done].
    destruct (Hh1 k1 eq_refl) as [Hk1 [d1 Hd1]].
    rewrite (truthy_ok _ Hk1).
    destruct (current_h2 st) as [k2|] eqn:C2; [|done].
    rewrite (truthy_ok _ (Hh2 k2 eq_refl)).
    exists d1. split; [done|]. simpl.
    rewrite (proj2 (getitem_Ok _ _ _) Hd1). simpl.
    unfold getitem. by destruct (d1 !! k2).
Qed.

(** *** The examples of the specification *)

(** C3: "1 Introduction", "1.1 Background", "1.1.1 History" give
    [{"Introduction": {"Background": {"History": {}}}}]. *)
Theorem extract_headings_introduction :
  extract_headings isdecimal
    [u "1 Introduction"; u "1.1 Background"; u "1.1.1 History"] =
  Ok {[ u "Introduction" :=
          {[ u "Background" := {[ u "History" := () ]} ]} ]}.
Proof. rewrite extract_headings_ascii by done. vm_compute. reflexivity. Qed.

(** C5: a level-2 heading met before any level-1 heading is dropped: the
    result is the one of the sequence without it.  The single paragraph
    "1.1 Orphan" gives the empty mapping. *)
Theorem orphan_h2_dropped :
  (∀ ps p qs,
     last_h1 isdecimal ps = None → is_Some (heading isdecimal H2 p) →
     extract_headings isdecimal (ps ++ p :: qs) =
     extract_headings isdecimal (ps ++ qs)) ∧
  extract_headings isdecimal [u "1.1 Orphan"] = Ok ∅.
Proof.
  split; [|by rewrite extract_headings_ascii].
  intros ps p qs Hps [l E]. unfold extract_headings.
  rewrite !loop_app.
  destruct (loop isdecimal initial ps) as [st|e] eqn:Hl; [|done].
  destruct (loop_locals _ _ Hl) as [I1 _]. simpl.
  by rewrite (step_h2 _ _ _ E), I1, Hps.
Qed.

(** C6: a level-3 heading met while no level-2 label is set (a level-1
    label being set or not) is dropped: the turn of the loop changes
    nothing.  "1 A" then "1.1.1 B" give [{"A": {}}]. *)
Theorem orphan_h3_dropped :
  (∀ st p,
     current_h2 st = None → is_Some (heading isdecimal H3 p) →
     step isdecimal st p = Ok st) ∧
  extract_headings isdecimal [u "1 A"; u "1.1.1 B"] = Ok {[ u "A" := ∅ ]}.
Proof.
  split.
  - intros st p C2 [l E]. rewrite (step_h3 _ _ _ E), C2. simpl.
    by destruct (truthy (current_h1 st)).
  - rewrite extract_headings_ascii by done. vm_compute. reflexivity.
Qed.

(** C7: a level-1 heading sets the entry of its label to the empty
    mapping: when the label was a key already, the level-2 and level-3
    entries under it are gone, and the other keys are as they were. *)
Theorem h1_overwrites ps d p l :
  extract_headings isdecimal ps = Ok d →
  heading isdecimal H1 p = Some l →
  extract_headings isdecimal (ps ++ [p]) = Ok (<[l := ∅]> d).
Proof.
  intros (st & Hl & <-)%extract_headings_Ok E.
  unfold extract_headings. rewrite loop_app, Hl. simpl.
  by rewrite (step_h1' _ _ _ E).
Qed.

(** *** The order of the tests *)

Lemma arm_match l st text r :
  arm isdecimal l st text = Some r →
  is_Some (re_match (patterns l) text).
Proof.
  destruct l; simpl; by destruct (re_match _ text).
Qed.

Lemma classify_in_found order l st text r :
  arm isdecimal l st text = Some r → l ∈ order →
  classify_in isdecimal order st text = r.
Proof.
  intros Hl. induction order as [|l' order IH]; simpl.
  { by intros ?%elem_of_nil. }
  intros [->|Hin]%elem_of_cons; [by rewrite Hl|].
  destruct (arm isdecimal l' st text) as [r'|] eqn:E; [|by apply IH].
  assert (l = l') as <-; [|congruence].
  by apply (patterns_exclusive isdecimal isdecimal_ascii
              isdecimal_not_space l l' text); eapply arm_match.
Qed.

Lemma classify_in_none order st text :
  (∀ l, arm isdecimal l st text = None) →
  classify_in isdecimal order st text = Ok st.
Proof.
  intros H. induction order as [|l order IH]; simpl; [done|].
  by rewrite H.
Qed.

Lemma classify_chain st text :
  classify isdecimal st text =
  classify_in isdecimal [H1; H2; H3] st text.
Proof.
  unfold classify, classify_in, arm.
  by destruct (re_match (patterns H1) text), (re_match (patterns H2) text),
    (re_match (patterns H3) text), (truthy (current_h1 st)),
    (truthy (current_h2 st)).
Qed.

(** C8: no text matches two of the three patterns, so the order of the
    tests does not matter: the chain with its arms in any order that has
    the three levels does what the chain of the source does. *)
Theorem patterns_at_most_one :
  (∀ text l1 l2,
     is_Some (re_match (patterns l1) text) →
     is_Some (re_match (patterns l2) text) → l1 = l2) ∧
  (∀ order st text,
     H1 ∈ order → H2 ∈ order → H3 ∈ order →
     classify_in isdecimal order st text = classify isdecimal st text).
Proof.
  split.
  { intros text l1 l2. by apply patterns_exclusive. }
  intros order st text I1 I2 I3. rewrite classify_chain.
  assert (Hin : ∀ l, l ∈ order) by (by intros []).
  assert (Hin' : ∀ l, l ∈ [H1; H2; H3]) by (intros []; set_solver).
  destruct (arm isdecimal H1 st text) as [r|] eqn:A1.
  { by rewrite !(classify_in_found _ H1 st text r). }
  destruct (arm isdecimal H2 st text) as [r|] eqn:A2.
  { by rewrite !(classify_in_found _ H2 st text r). }
  destruct (arm isdecimal H3 st text) as [r|] eqn:A3.
  { by rewrite !(classify_in_found _ H3 st text r). }
  rewrite !classify_in_none; [done|by intros []..].
Qed.
End Headings.

(** ** The ASCII digits as the digit table *)

Lemma ascii_isdecimal_ascii c :
  (c < 128)%N → Unicode.ascii_isdecimal c = Unicode.ascii_isdecimal c.
Proof. done. Qed.

Lemma ascii_isdecimal_not_space c :
  Unicode.ascii_isdecimal c = true → Unicode.isspace c = false.
Proof.
  unfold Unicode.ascii_isdecimal, Unicode.isspace.
  intros [H1 H2]%andb_prop. apply N.leb_le in H1, H2.
  repeat match goal with
    | |- context [(?a <=? ?b)%N] => destruct (N.leb_spec a b); try lia
    | |- context [(?a =? ?b)%N] => destruct (N.eqb_spec a b); try lia
    end; done.
Qed.

Lemma extract_headings_no_heading_witness :
  extract_headings Unicode.ascii_isdecimal
    [u "Abstract"; u "   "; u "1.Scope"; u "1.1"; u "2) Terms"] = Ok ∅.
Proof.
  apply extract_headings_no_heading.
  repeat constructor; intros []; vm_compute; reflexivity.
Defined.

Lemma extract_headings_keys_witness :
  keys_ok {[ u "A b" := {[ u "B" := {[ u "C" := () ]} ]} ]}.
Proof.
  apply (extract_headings_keys Unicode.ascii_isdecimal
           [u "1  A b"; u " 1.1 B "; u "1.1.1   C"]).
  vm_compute. reflexivity.
Defined.

Lemma extract_headings_stale_h2_raises_witness :
  extract_headings Unicode.ascii_isdecimal
    [u "1 A"; u "1.1 B"; u "2 C"; u "2.1.1 D"] =
  Raise (KeyError (u "B")).
Proof.
  apply extract_headings_stale_h2_raises. intros c _. reflexivity.
Defined.

Lemma insert_under_last_seen_witness :
  ∃ st,
    loop Unicode.ascii_isdecimal initial [u "1 A"; u "1.1 B"] = Ok st ∧
    current_h1 st = Some (u "A") ∧ current_h2 st = Some (u "B") ∧
    ∃ st', step Unicode.ascii_isdecimal st (u "1.1.1 C") = Ok st' ∧
           headings_dict st' =
           {[ u "A" := {[ u "B" := {[ u "C" := () ]} ]} ]}.
Proof.
  eexists. split; [vm_compute; reflexivity|].
  match goal with
  | |- current_h1 ?st = _ ∧ _ =>
      destruct (insert_under_last_seen Unicode.ascii_isdecimal
                  ascii_isdecimal_ascii ascii_isdecimal_not_space
                  [u "1 A"; u "1.1 B"] st (u "1.1.1 C"))
        as (I1 & I2 & _ & I3); [vm_compute; reflexivity|]
  end.
  split; [by rewrite I1|]. split; [by rewrite I2|].
  specialize (I3 (u "C") eq_refl).
  destruct I3 as (d1 & Hd1 & I3).
  injection Hd1 as <-. eexists. split; [exact I3|].
  vm_compute. reflexivity.
Defined.

Lemma extract_headings_introduction_witness :
  extract_headings Unicode.ascii_isdecimal
    [u "1 Introduction"; u "1.1 Background"; u "1.1.1 History"] =
  Ok {[ u "Introduction" :=
          {[ u "Background" := {[ u "History" := () ]} ]} ]}.
Proof.
  apply extract_headings_introduction. intros c _. reflexivity.
Defined.

Lemma orphan_h2_dropped_witness :
  extract_headings Unicode.ascii_isdecimal
    ([u "Preface"] ++ u "1.1 Orphan" :: [u "1 A"]) =
  extract_headings Unicode.ascii_isdecimal ([u "Preface"] ++ [u "1 A"]).
Proof.
  apply (orphan_h2_dropped Unicode.ascii_isdecimal
           ascii_isdecimal_ascii ascii_isdecimal_not_space).
  - vm_compute. reflexivity.
  - vm_compute. eexists. reflexivity.
Defined.

Lemma orphan_h3_dropped_witness :
  step Unicode.ascii_isdecimal
    {| headings_dict := {[ u "A" := ∅ ]};
       current_h1 := Some (u "A");
       current_h2 := None |}
    (u "1.1.1 B") =
  Ok {| headings_dict := {[ u "A" := ∅ ]};
        current_h1 := Some (u "A");
        current_h2 := None |}.
Proof.
  apply (orphan_h3_dropped Unicode.ascii_isdecimal
           ascii_isdecimal_ascii ascii_isdecimal_not_space).
  - reflexivity.
  - vm_compute. eexists. reflexivity.
Defined.

Lemma h1_overwrites_witness :
  extract_headings Unicode.ascii_isdecimal
    ([u "1 Intro"; u "1.1 Sub"; u "1.1.1 Leaf"; u "2 Other"] ++
     [u "1 Intro"]) =
  Ok (<[ u "Intro" := ∅ ]>
        {[ u "Intro" := {[ u "Sub" := {[ u "Leaf" := () ]} ]};
           u "Other" := ∅ ]}).
Proof.
  apply h1_overwrites; vm_compute; reflexivity.
Defined.

Lemma patterns_at_most_one_witness :
  classify_in Unicode.ascii_isdecimal [H3; H1; H2]
    {| headings_dict := {[ u "A" := ∅ ]};
       current_h1 := Some (u "A");
       current_h2 := None |}
    (u "1.1 B") =
  classify Unicode.ascii_isdecimal
    {| headings_dict := {[ u "A" := ∅ ]};
       current_h1 := Some (u "A");
       current_h2 := None |}
    (u "1.1 B").
Proof.
  apply (patterns_at_most_one Unicode.ascii_isdecimal
           ascii_isdecimal_ascii ascii_isdecimal_not_space).
  - apply elem_of_cons. right. apply elem_of_cons. by left.
  - do 2 (apply elem_of_cons; right). apply elem_of_cons. by left.
  - apply elem_of_cons. by left.
Defined.

(** * Further properties of the extractor *)

(** ** A paragraph counts through its level and label only *)

Section Factor.
Variable isdecimal : N → bool.

Local Abbreviation re_match := (Re.re_match isdecimal).

Lemma re_match_heading l p :
  re_match (patterns l) (strip p) = (λ k, [k]) <$> heading isdecimal l p.
Proof.
  destruct (heading isdecimal l p) as [k|] eqn:E; simpl.
  - by apply heading_Some.
  - by apply heading_None.
Qed.

Lemma step_classify st p :
  step isdecimal st p = classify isdecimal st (strip p).
Proof.
  unfold step. destruct (strip p) as [|c t] eqn:E; [|done].
  unfold classify. by rewrite !re_match_nil.
Qed.

Lemma step_heading_eq st p q :
  (∀ l, heading isdecimal l p = heading isdecimal l q) →
  step isdecimal st p = step isdecimal st q.
Proof.
  intros H. rewrite !step_classify. unfold classify.
  by rewrite !re_match_heading, !H.
Qed.

Lemma loop_heading_eq st ps qs :
  Forall2 (λ p q, ∀ l, heading isdecimal l p = heading isdecimal l q) ps qs →
  loop isdecimal st ps = loop isdecimal st qs.
Proof.
  intros H. revert st. induction H as [|p q ps qs Hpq _ IH]; intros st.
  { done. }
  simpl. rewrite (step_heading_eq st p q Hpq).
  destruct (step isdecimal st q); simpl; [apply IH|done].
Qed.

(** X1: the result, mapping or exception, depends on a paragraph only
    through the levels it is a heading of and the labels: two sequences
    that agree on these, paragraph by paragraph, give the same result. *)
Theorem extract_headings_by_heading ps qs :
  Forall2 (λ p q, ∀ l, heading isdecimal l p = heading isdecimal l q) ps qs →
  extract_headings isdecimal ps = extract_headings isdecimal qs.
Proof.
  intros H. unfold extract_headings. by rewrite (loop_heading_eq _ ps qs).
Qed.

(** *** Whitespace around a paragraph *)

Lemma lstrip_app_space a s :
  Forall (λ c, Unicode.isspace c = true) a → lstrip (a ++ s) = lstrip s.
Proof. induction 1 as [|c a Hc _ IH]; simpl; [done|by rewrite Hc]. Qed.

Lemma lstrip_app s b :
  lstrip s ≠ [] → lstrip (s ++ b) = lstrip s ++ b.
Proof.
  induction s as [|c s IH]; simpl; [done|].
  by destruct (Unicode.isspace c).
Qed.

Lemma rstrip_app_space s b :
  Forall (λ c, Unicode.isspace c = true) b → rstrip (s ++ b) = rstrip s.
Proof.
  intros Hb. unfold rstrip. rewrite reverse_app, lstrip_app_space; [done|].
  by apply Forall_reverse.
Qed.

Lemma strip_padded p q : padded p q → strip q = strip p.
Proof.
  intros (a & b & Ha & Hb & ->). unfold strip.
  rewrite lstrip_app_space by done.
  destruct (lstrip p) as [|c t] eqn:E.
  - apply lstrip_nil in E.
    assert (lstrip (p ++ b) = []) as ->; [|done].
    apply lstrip_nil, Forall_app. by split.
  - rewrite lstrip_app by (by rewrite E). rewrite E.
    by apply rstrip_app_space.
Qed.

(** X2: whitespace before and after the text of a paragraph does not
    count: padding the paragraphs of a sequence with whitespace leaves the
    result as it is. *)
Theorem extract_headings_padded ps qs :
  Forall2 padded ps qs →
  extract_headings isdecimal qs = extract_headings isdecimal ps.
Proof.
  intros H. unfold extract_headings.
  rewrite (loop_heading_eq _ qs ps); [done|].
  apply Forall2_flip. eapply Forall2_impl; [done|].
  intros p q Hpq l. unfold heading. by rewrite (strip_padded p q).
Qed.

(** *** Paragraphs that are no headings *)

Lemma loop_filter_heading st ps :
  loop isdecimal st (filter (is_heading isdecimal) ps) =
  loop isdecimal st ps.
Proof.
  revert st. induction ps as [|p ps IH]; intros st; [done|].
  rewrite filter_cons.
  destruct (decide (is_heading isdecimal p)) as [Hp|Hp]; simpl.
  - destruct (step isdecimal st p); simpl; [apply IH|done].
  - rewrite step_none; [apply IH|].
    intros l. apply heading_None.
    destruct (heading isdecimal l p) as [k|] eqn:E; [|done].
    destruct Hp. unfold is_heading. destruct l; rewrite E; eauto.
Qed.

(** X3: only the headings count: the result on a sequence of paragraphs is
    the result on its headings alone, body text and every other paragraph
    that matches none of the patterns deleted. *)
Theorem extract_headings_only_headings ps :
  extract_headings isdecimal (filter (is_heading isdecimal) ps) =
  extract_headings isdecimal ps.
Proof. unfold extract_headings. by rewrite loop_filter_heading. Qed.
End Factor.

Lemma extract_headings_by_heading_witness :
  extract_headings Unicode.ascii_isdecimal [u "1 A"; u "1.1 B"; u "text"] =
  extract_headings Unicode.ascii_isdecimal [u "7  A"; u " 3.4 B"; u "1."].
Proof.
  apply extract_headings_by_heading.
  repeat constructor; intros []; vm_compute; reflexivity.
Defined.

Lemma extract_headings_padded_witness :
  extract_headings Unicode.ascii_isdecimal
    [u "  1 A" ++ [9%N]; u "1.1 B "] =
  extract_headings Unicode.ascii_isdecimal [u "1 A"; u "1.1 B"].
Proof.
  apply extract_headings_padded. repeat constructor.
  - exists (u "  "), [9%N]. split_and!; [by repeat constructor..|done].
  - exists [], (u " "). split_and!; [by repeat constructor..|done].
Defined.

(** ** What the patterns accept *)

Section Recognise.
Variable isdecimal : N → bool.

Local Abbreviation exec := (Re.exec isdecimal).
Local Abbreviation re_match := (Re.re_match isdecimal).

(** The longest run is tried first: when the continuation succeeds after
    it, that is the match. *)
Lemma max_repeat1_longest {A} (p : N → bool) (k : str → option A)
    s pre rest r :
  s = pre ++ rest → pre ≠ [] → Forall (λ c, p c = true) pre →
  (∀ c, head rest = Some c → p c = false) →
  k rest = Some r →
  Re.max_repeat1 p k s = Some r.
Proof.
  intros -> Hne Hpre Hrest Hk.
  induction Hpre as [|c pre Hc Hpre IH]; [done|]. simpl. rewrite Hc.
  destruct pre as [|c' pre'].
  - simpl. destruct rest as [|c0 rest']; simpl; [done|].
    by rewrite (Hrest c0 eq_refl).
  - by rewrite IH.
Qed.

Lemma tail_recognised ws label :
  ws ≠ [] → Forall (λ c, Unicode.isspace c = true) ws →
  label_ok label → Forall (λ c, c ≠ Unicode.LF) label →
  exec heading_tail false [] (ws ++ label) = Some [label].
Proof.
  intros Hws Hsp (Hl & Hhead & _) Hlf.
  apply (max_repeat1_longest _ _ _ ws label); [done|done|done|done|].
  apply (max_repeat1_longest _ _ _ label []);
    [by rewrite app_nil_r|done| |done|].
  - eapply Forall_impl; [done|]. intros c Hc. simpl.
    by apply negb_true_iff, N.eqb_neq.
  - simpl. by rewrite Nat.sub_0_r, firstn_all.
Qed.

Lemma digits_recognised prog bos g n rest r :
  n ≠ [] → Forall (λ c, isdecimal c = true) n →
  (∀ c, head rest = Some c → isdecimal c = false) →
  exec prog false g rest = Some r →
  exec (Re.Max_repeat1 Re.Digit :: prog) bos g (n ++ rest) = Some r.
Proof.
  intros Hn Hd Hrest Hk.
  by apply (max_repeat1_longest (Re.in_category isdecimal Re.Digit)
              (exec prog false g) _ n rest).
Qed.

Lemma literal_recognised prog bos g c rest :
  exec (Re.Literal c :: prog) bos g (c :: rest) = exec prog false g rest.
Proof. simpl. by rewrite N.eqb_refl. Qed.

Lemma strip_fixed s :
  (∀ c, head s = Some c → Unicode.isspace c = false) →
  (∀ c, last s = Some c → Unicode.isspace c = false) →
  strip s = s.
Proof.
  intros Hh Hl.
  assert (Hfix : ∀ t, (∀ c, head t = Some c → Unicode.isspace c = false) →
                      lstrip t = t).
  { intros [|c t] Ht; simpl; [done|]. by rewrite (Ht c eq_refl). }
  unfold strip, rstrip. rewrite (Hfix s Hh), Hfix.
  - apply reverse_involutive.
  - intros c. rewrite head_reverse. apply Hl.
Qed.

(** The two facts of the Unicode database, as above. *)
Hypothesis isdecimal_ascii :
  ∀ c, (c < 128)%N → isdecimal c = Unicode.ascii_isdecimal c.
Hypothesis isdecimal_not_space :
  ∀ c, isdecimal c = true → Unicode.isspace c = false.

Lemma full_stop_not_decimal t c :
  head (Unicode.FULL_STOP :: t) = Some c → isdecimal c = false.
Proof. intros [= <-]. by rewrite isdecimal_ascii. Qed.

Lemma H1_recognised n rest m :
  n ≠ [] → Forall (λ c, isdecimal c = true) n →
  (∀ c, head rest = Some c → isdecimal c = false) →
  exec heading_tail false [] rest = Some m →
  re_match (patterns H1) (n ++ rest) = Some m.
Proof.
  intros Hn Hd Hrest Ht.
  change (exec (Re.Max_repeat1 Re.Digit :: heading_tail)
            true [] (n ++ rest) = Some m).
  by apply digits_recognised.
Qed.

Lemma H2_recognised n1 n2 rest m :
  n1 ≠ [] → Forall (λ c, isdecimal c = true) n1 →
  n2 ≠ [] → Forall (λ c, isdecimal c = true) n2 →
  (∀ c, head rest = Some c → isdecimal c = false) →
  exec heading_tail false [] rest = Some m →
  re_match (patterns H2) (n1 ++ Unicode.FULL_STOP :: n2 ++ rest) = Some m.
Proof.
  intros Hn1 Hd1 Hn2 Hd2 Hrest Ht.
  change (exec (Re.Max_repeat1 Re.Digit :: Re.Literal Unicode.FULL_STOP ::
                Re.Max_repeat1 Re.Digit :: heading_tail)
            true [] (n1 ++ Unicode.FULL_STOP :: n2 ++ rest) = Some m).
  apply digits_recognised; [done|done|apply full_stop_not_decimal|].
  rewrite literal_recognised. by apply digits_recognised.
Qed.

Lemma H3_recognised n1 n2 n3 rest m :
  n1 ≠ [] → Forall (λ c, isdecimal c = true) n1 →
  n2 ≠ [] → Forall (λ c, isdecimal c = true) n2 →
  n3 ≠ [] → Forall (λ c, isdecimal c = true) n3 →
  (∀ c, head rest = Some c → isdecimal c = false) →
  exec heading_tail false [] rest = Some m →
  re_match (patterns H3)
    (n1 ++ Unicode.FULL_STOP :: n2 ++ Unicode.FULL_STOP :: n3 ++ rest)
  = Some m.
Proof.
  intros Hn1 Hd1 Hn2 Hd2 Hn3 Hd3 Hrest Ht.
  change (exec (Re.Max_repeat1 Re.Digit :: Re.Literal Unicode.FULL_STOP ::
                Re.Max_repeat1 Re.Digit :: Re.Literal Unicode.FULL_STOP ::
                Re.Max_repeat1 Re.Digit :: heading_tail)
            true []
            (n1 ++ Unicode.FULL_STOP :: n2 ++ Unicode.FULL_STOP :: n3 ++ rest)
          = Some m).
  apply digits_recognised; [done|done|apply full_stop_not_decimal|].
  rewrite literal_recognised.
  apply digits_recognised; [done|done|apply full_stop_not_decimal|].
  rewrite literal_recognised. by apply digits_recognised.
Qed.

(** X4: a paragraph made of as many runs of decimal digits as the level
    asks for, joined by full stops, then whitespace, then a label (not
    empty, no whitespace at either end, no line feed) is a heading of that
    level with that label, and of no other level: which digits and how
    much whitespace makes no difference. *)
Theorem heading_recognised l nums ws label :
  length nums = depth l →
  Forall (λ n, n ≠ [] ∧ Forall (λ c, isdecimal c = true) n) nums →
  ws ≠ [] → Forall (λ c, Unicode.isspace c = true) ws →
  label_ok label → Forall (λ c, c ≠ Unicode.LF) label →
  heading isdecimal l (dotted nums ++ ws ++ label) = Some label ∧
  ∀ l', l' ≠ l → heading isdecimal l' (dotted nums ++ ws ++ label) = None.
Proof.
  intros Hlen Hnums Hws Hsp Hlab Hlf.
  assert (Htail := tail_recognised ws label Hws Hsp Hlab Hlf).
  assert (Hw : ∀ c, head (ws ++ label) = Some c → isdecimal c = false).
  { intros c Hc. destruct ws as [|w ws']; [done|]. injection Hc as <-.
    inversion_clear Hsp. destruct (isdecimal w) eqn:E; [|done].
    apply isdecimal_not_space in E. congruence. }
  assert (Hmatch : heading isdecimal l (dotted nums ++ ws ++ label)
                   = Some label).
  { apply heading_Some. rewrite strip_fixed.
    - destruct l; simpl in Hlen;
        repeat (destruct nums as [|? nums]; simpl in Hlen; try done);
        repeat match goal with
          | H : Forall _ (_ :: _) |- _ => inversion_clear H
          | H : _ ∧ _ |- _ => destruct H
          end; simpl dotted.
      + by apply H1_recognised.
      + rewrite <-app_assoc, <-app_comm_cons. by apply H2_recognised.
      + rewrite <-app_assoc, <-app_comm_cons, <-app_assoc, <-app_comm_cons.
        by apply H3_recognised.
    - intros c Hc. destruct nums as [|[|d n] nums]; simpl in Hlen.
      + by destruct l.
      + by inversion_clear Hnums as [|?? [Hn _] _].
      + inversion_clear Hnums as [|?? [_ Hd] _]. inversion_clear Hd.
        assert (c = d) as ->
          by (destruct nums; simpl in Hc; by injection Hc).
        by apply isdecimal_not_space.
    - intros c Hc. destruct Hlab as (Hl & _ & Hlast). apply Hlast.
      rewrite !last_app in Hc.
      destruct (last label) eqn:E; [done|]. by apply last_None in E. }
  split; [done|].
  intros l' Hne. eapply heading_exclusive; [done..|by rewrite Hmatch|done].
Qed.
End Recognise.

Lemma heading_recognised_witness :
  heading Unicode.ascii_isdecimal H2
    (dotted [u "12"; u "3"] ++ u "  " ++ u "A b") = Some (u "A b") ∧
  ∀ l', l' ≠ H2 →
    heading Unicode.ascii_isdecimal l'
      (dotted [u "12"; u "3"] ++ u "  " ++ u "A b") = None.
Proof.
  apply (heading_recognised Unicode.ascii_isdecimal
           ascii_isdecimal_ascii ascii_isdecimal_not_space).
  - reflexivity.
  - by repeat constructor.
  - done.
  - by repeat constructor.
  - split_and!; [done|by intros ? [= <-]..].
  - by repeat constructor.
Defined.

(** ** The keys of the tree and the headings of the document *)

Local Set Warnings "-clear-no-such-hyp".

Section Keys.
Variable isdecimal : N → bool.

Lemma since_h1_snoc ps p :
  since_h1 isdecimal (ps ++ [p]) =
  match heading isdecimal H1 p with
  | Some _ => []
  | None => since_h1 isdecimal ps ++ [p]
  end.
Proof.
  unfold since_h1. rewrite reverse_snoc. simpl.
  destruct (heading isdecimal H1 p); [done|]. by rewrite reverse_cons.
Qed.

Lemma h2_since_h1_snoc ps p :
  h2_since_h1 isdecimal (ps ++ [p]) =
  match heading isdecimal H1 p, heading isdecimal H2 p with
  | Some _, _ => None
  | None, Some l => Some l
  | None, None => h2_since_h1 isdecimal ps
  end.
Proof.
  unfold h2_since_h1. rewrite since_h1_snoc.
  destruct (heading isdecimal H1 p); [done|].
  rewrite omap_app. simpl. destruct (heading isdecimal H2 p); simpl.
  - apply last_snoc.
  - by rewrite app_nil_r.
Qed.

(** A level-2 heading that follows the level-1 heading seen last is the
    level-2 heading seen last. *)
Lemma h2_since_h1_last ps k :
  is_Some (last_h1 isdecimal ps) →
  h2_since_h1 isdecimal ps = Some k → last_h2 isdecimal ps = Some k.
Proof.
  induction ps as [|p ps IH] using rev_ind; [by intros []|].
  rewrite last_h1_snoc, h2_since_h1_snoc, last_h2_snoc.
  destruct (heading isdecimal H1 p) as [l1|]; [done|].
  intros H1s. destruct H1s as [k1 E1]. rewrite E1.
  destruct (heading isdecimal H2 p) as [l2|]; [done|].
  apply IH. by rewrite E1.
Qed.

Lemma h2_since_h1_elem ps k :
  h2_since_h1 isdecimal ps = Some k →
  k ∈ omap (heading isdecimal H2) (since_h1 isdecimal ps).
Proof. apply last_Some_elem_of. Qed.

Lemma h2_since_h1_None ps :
  h2_since_h1 isdecimal ps = None →
  omap (heading isdecimal H2) (since_h1 isdecimal ps) = [].
Proof. apply last_None. Qed.

(** The two facts of the Unicode database, as above. *)
Hypothesis isdecimal_ascii :
  ∀ c, (c < 128)%N → isdecimal c = Unicode.ascii_isdecimal c.
Hypothesis isdecimal_not_space :
  ∀ c, isdecimal c = true → Unicode.isspace c = false.

Local Abbreviation step_h1' := (step_h1' isdecimal).
Local Abbreviation step_h2 :=
  (step_h2 isdecimal isdecimal_ascii isdecimal_not_space).
Local Abbreviation step_h3 :=
  (step_h3 isdecimal isdecimal_ascii isdecimal_not_space).
Local Abbreviation heading_cases := (heading_cases isdecimal).
Local Abbreviation loop_locals :=
  (loop_locals isdecimal isdecimal_ascii isdecimal_not_space).
Local Abbreviation heading_exclusive :=
  (heading_exclusive isdecimal isdecimal_ascii isdecimal_not_space).

(** The top-level keys are the labels of the level-1 headings, and the
    keys under the level-1 label seen last are the labels of the level-2
    headings that follow it. *)
Lemma loop_doms ps st :
  loop isdecimal initial ps = Ok st →
  dom (headings_dict st) =@{gset str}
    list_to_set (omap (heading isdecimal H1) ps) ∧
  ∀ k1, last_h1 isdecimal ps = Some k1 →
    ∃ d1, headings_dict st !! k1 = Some d1 ∧
      dom d1 =@{gset str}
        list_to_set (omap (heading isdecimal H2) (since_h1 isdecimal ps)).
Proof.
  revert st. induction ps as [|p ps IH] using rev_ind; intros st.
  { intros [= <-]. simpl. split; [by rewrite dom_empty_L|done]. }
  intros (st1 & Hl & Hs)%loop_snoc.
  destruct (IH _ Hl) as [Idom Icur].
  destruct (loop_locals _ _ Hl) as [I1 I2].
  destruct (loop_ok _ _ _ _ initial_ok Hl) as (Hh1 & Hh2 & Hd).
  rewrite last_h1_snoc, since_h1_snoc, omap_app, list_to_set_app_L. simpl.
  destruct (heading_cases p)
    as [[l E1]|[(l & E2 & E1)|[(l & E3 & E1 & E2)|E]]].
  - rewrite (step_h1' _ _ _ E1) in Hs. injection Hs as <-. simpl.
    rewrite E1. simpl. split.
    + rewrite dom_insert_L, Idom. set_solver.
    + intros k1 [= <-]. exists ∅. rewrite lookup_insert_eq.
      split; [done|]. by rewrite dom_empty_L.
  - rewrite (step_h2 _ _ _ E2) in Hs. rewrite E1. simpl.
    rewrite omap_app, list_to_set_app_L. simpl. rewrite E2. simpl.
    destruct (current_h1 st1) as [k1|] eqn:C1.
    + destruct (Hh1 k1 eq_refl) as [Hk1 [d1 Hd1]].
      rewrite (truthy_ok _ Hk1) in Hs. simpl in Hs.
      rewrite (proj2 (getitem_Ok _ _ _) Hd1) in Hs. simpl in Hs.
      injection Hs as <-. simpl. split.
      * rewrite dom_insert_L, Idom.
        assert (k1 ∈ dom (headings_dict st1)) by (by apply elem_of_dom).
        set_solver.
      * intros k1' Hk1'. rewrite <-I1 in Hk1'. injection Hk1' as <-.
        destruct (Icur k1 (eq_sym I1)) as (d1' & Hd1' & Hdom).
        assert (d1' = d1) as -> by congruence.
        exists (<[l := ∅]> d1). rewrite lookup_insert_eq. split; [done|].
        rewrite dom_insert_L, Hdom. set_solver.
    + simpl in Hs. injection Hs as <-. split; [set_solver|].
      intros k1 Hk1. congruence.
  - rewrite (step_h3 _ _ _ E3) in Hs. rewrite E1. simpl.
    rewrite omap_app, list_to_set_app_L. simpl. rewrite E2. simpl.
    destruct (truthy (current_h1 st1)) as [k1|] eqn:T1;
      [|injection Hs as <-; split; [set_solver|];
        intros k1 Hk1; destruct (Icur k1 Hk1) as (d1 & ? & ?);
        exists d1; split; [done|set_solver]].
    destruct (truthy (current_h2 st1)) as [k2|] eqn:T2;
      [|injection Hs as <-; split; [set_solver|];
        intros k1' Hk1; destruct (Icur k1' Hk1) as (d1 & ? & ?);
        exists d1; split; [done|set_solver]].
    apply (truthy_label isdecimal) in T1 as [T1 _].
    destruct (getitem (headings_dict st1) k1) as [d1|] eqn:G1; [|done].
    simpl in Hs. destruct (getitem d1 k2) as [d2|] eqn:G2; [|done].
    simpl in Hs. injection Hs as <-. simpl.
    apply getitem_Ok in G1, G2. split.
    + rewrite dom_insert_L, Idom.
      assert (k1 ∈ dom (headings_dict st1)) by (by apply elem_of_dom).
      set_solver.
    + intros k1' Hk1'.
      assert (Hlast : last_h1 isdecimal ps = Some k1) by (by rewrite <-I1).
      rewrite Hlast in Hk1'. injection Hk1' as <-.
      destruct (Icur k1 Hlast) as (d1' & Hd1' & Hdom).
      assert (d1' = d1) as -> by congruence.
      eexists. rewrite lookup_insert_eq. split; [done|].
      rewrite dom_insert_L, Hdom.
      assert (k2 ∈ dom d1) by (by apply elem_of_dom).
      set_solver.
  - rewrite step_none in Hs by (intros l; apply heading_None, E).
    injection Hs as <-. rewrite !E. simpl. split; [set_solver|].
    intros k1 Hk1. destruct (Icur k1 Hk1) as (d1 & ? & ?).
    exists d1. split; [done|]. rewrite omap_app, list_to_set_app_L. simpl.
    rewrite E. simpl. set_solver.
Qed.

(** X5: the keys of a returned mapping are the labels of the level-1
    headings of the document, all of them and nothing else. *)
Theorem extract_headings_dom ps d :
  extract_headings isdecimal ps = Ok d →
  dom d =@{gset str} list_to_set (omap (heading isdecimal H1) ps).
Proof.
  intros (st & Hl & <-)%extract_headings_Ok. by apply loop_doms.
Qed.

(** X6: in a returned mapping, the keys under the label of the level-1
    heading seen last are the labels of the level-2 headings that follow
    that heading, all of them and nothing else: what an earlier section of
    the same label held is gone. *)
Theorem extract_headings_last_section ps d k1 :
  extract_headings isdecimal ps = Ok d →
  last_h1 isdecimal ps = Some k1 →
  ∃ d1, d !! k1 = Some d1 ∧
    dom d1 =@{gset str}
      list_to_set (omap (heading isdecimal H2) (since_h1 isdecimal ps)).
Proof.
  intros (st & Hl & <-)%extract_headings_Ok. by apply loop_doms.
Qed.

(** *** When the extractor raises *)

Lemma last_h2_None ps :
  last_h1 isdecimal ps = None → last_h2 isdecimal ps = None.
Proof. intros H. unfold last_h2. by rewrite last_h1_None. Qed.

(** A level-3 heading after the paragraphs [ps]: the turn of the loop
    goes through when the heading finds its place, and raises otherwise. *)
Lemma step_h3_outcome ps st p l :
  loop isdecimal initial ps = Ok st →
  heading isdecimal H3 p = Some l →
  (h3_in_place isdecimal ps → ∃ st', step isdecimal st p = Ok st') ∧
  (¬ h3_in_place isdecimal ps →
   ∃ k2, last_h2 isdecimal ps = Some k2 ∧
         step isdecimal st p = Raise (KeyError k2)).
Proof.
  intros Hl E3. destruct (loop_locals _ _ Hl) as [I1 I2].
  destruct (loop_ok _ _ _ _ initial_ok Hl) as (Hh1 & Hh2 & Hd).
  destruct (loop_doms _ _ Hl) as [_ Icur].
  rewrite (step_h3 _ _ _ E3). unfold h3_in_place.
  destruct (current_h1 st) as [k1|] eqn:C1.
  2:{ simpl. split; [by eauto|]. intros []. left.
      by apply last_h2_None. }
  destruct (Hh1 k1 eq_refl) as [Hk1 _]. rewrite (truthy_ok _ Hk1).
  destruct (current_h2 st) as [k2|] eqn:C2.
  2:{ simpl. split; [by eauto|]. intros []. by left. }
  rewrite (truthy_ok _ (Hh2 k2 eq_refl)).
  destruct (Icur k1 (eq_sym I1)) as (d1 & Hd1 & Hdom).
  simpl. rewrite (proj2 (getitem_Ok _ _ _) Hd1). simpl. unfold getitem.
  destruct (h2_since_h1 isdecimal ps) as [k|] eqn:Hs.
  - assert (last_h2 isdecimal ps = Some k) as Hk
      by (apply h2_since_h1_last; [by rewrite <-I1|done]).
    assert (k = k2) as -> by congruence.
    assert (k2 ∈ dom d1) as [d2 Hd2]%elem_of_dom.
    { rewrite Hdom. apply elem_of_list_to_set. by apply h2_since_h1_elem. }
    rewrite Hd2. simpl. split; [by eauto|]. intros []. by right.
  - assert (d1 !! k2 = None) as ->.
    { apply not_elem_of_dom. rewrite Hdom, h2_since_h1_None by done.
      set_solver. }
    simpl. split.
    + intros [?|[? ?]]; congruence.
    + intros _. exists k2. by rewrite <-I2.
Qed.

Lemma loop_Raise st ps e :
  loop isdecimal st ps = Raise e →
  ∃ ps1 p ps2 st1,
    ps = ps1 ++ p :: ps2 ∧ loop isdecimal st ps1 = Ok st1 ∧
    step isdecimal st1 p = Raise e.
Proof.
  revert st. induction ps as [|p ps IH]; intros st; simpl; [done|].
  destruct (step isdecimal st p) as [st'|e'] eqn:Hs; simpl.
  - intros (ps1 & q & ps2 & st1 & -> & Hl & Hq)%IH.
    exists (p :: ps1), q, ps2, st1. simpl. by rewrite Hs.
  - intros [= ->]. by exists [], p, ps, st.
Qed.

Lemma loop_raises_at ps e :
  loop isdecimal initial ps = Raise e →
  ∃ ps1 p ps2 k2,
    ps = ps1 ++ p :: ps2 ∧
    is_Some (heading isdecimal H3 p) ∧
    last_h2 isdecimal ps1 = Some k2 ∧
    h2_since_h1 isdecimal ps1 = None ∧
    e = KeyError k2.
Proof.
  intros (ps1 & p & ps2 & st1 & -> & Hl & Hs)%loop_Raise.
  pose proof (loop_ok _ _ _ _ initial_ok Hl) as Hok.
  destruct (step_raises isdecimal isdecimal_ascii isdecimal_not_space
              _ _ _ Hok Hs) as (l & k1 & k2 & d1 & E3 & _).
  destruct (step_h3_outcome _ _ _ _ Hl E3) as [Hin Hout].
  destruct (decide (h3_in_place isdecimal ps1)) as [Hp|Hp].
  { destruct (Hin Hp) as [st' Hst']. congruence. }
  destruct (Hout Hp) as (k2' & Hk2' & Hr).
  exists ps1, p, ps2, k2'. split_and!; [done|by eauto|done| |congruence].
  destruct (h2_since_h1 isdecimal ps1) eqn:E; [|done].
  destruct Hp. right. by eauto.
Qed.


(** X8: the extractor returns a mapping exactly when every level-3
    heading of the document finds its place: before it, no level-2 label
    is set yet, or a level-2 heading follows the level-1 heading seen
    last. *)
Theorem extract_headings_returns ps :
  (∃ d, extract_headings isdecimal ps = Ok d) ↔
  ∀ ps1 p ps2,
    ps = ps1 ++ p :: ps2 → is_Some (heading isdecimal H3 p) →
    h3_in_place isdecimal ps1.
Proof.
  split.
  - intros [d Hd] ps1 p ps2 -> [l E3].
    apply extract_headings_Ok in Hd as (st & Hl & _).
    rewrite loop_app in Hl.
    destruct (loop isdecimal initial ps1) as [st1|] eqn:Hl1; [|done].
    simpl in Hl.
    destruct (decide (h3_in_place isdecimal ps1)) as [Hp|Hp]; [done|].
    destruct (step_h3_outcome _ _ _ _ Hl1 E3) as [_ Hout].
    destruct (Hout Hp) as (k2 & _ & Hr). by rewrite Hr in Hl.
  - intros Hall.
    unfold extract_headings.
    destruct (loop isdecimal initial ps) as [st|e] eqn:Hx; [by eauto|].
    apply loop_raises_at in Hx
      as (ps1 & p & ps2 & k2 & -> & Hp & Hk2 & Hs & _).
    destruct (Hall ps1 p ps2 eq_refl Hp) as [?|[? ?]]; congruence.
Qed.
End Keys.

Lemma extract_headings_dom_witness :
  dom ({[ u "A" := {[ u "B" := ∅ ]}; u "C" := ∅ ]} : tree) =@{gset str}
  list_to_set
    (omap (heading Unicode.ascii_isdecimal H1)
       [u "1 A"; u "1.1 B"; u "text"; u "2 C"]).
Proof.
  apply (extract_headings_dom Unicode.ascii_isdecimal
           ascii_isdecimal_ascii ascii_isdecimal_not_space).
  vm_compute. reflexivity.
Defined.

Lemma extract_headings_last_section_witness :
  ∃ d1,
    ({[ u "A" := ∅; u "C" := {[ u "D" := ∅ ]} ]} : tree) !! u "A" = Some d1 ∧
    dom d1 =@{gset str}
      list_to_set
        (omap (heading Unicode.ascii_isdecimal H2)
           (since_h1 Unicode.ascii_isdecimal
              [u "1 A"; u "1.1 B"; u "2 C"; u "2.1 D"; u "3 A"])).
Proof.
  apply (extract_headings_last_section Unicode.ascii_isdecimal
           ascii_isdecimal_ascii ascii_isdecimal_not_space);
    vm_compute; reflexivity.
Defined.


Lemma extract_headings_returns_witness :
  (∃ d, extract_headings Unicode.ascii_isdecimal
          [u "1 A"; u "1.1 B"; u "1.1.1 C"] = Ok d) ↔
  ∀ ps1 p ps2,
    [u "1 A"; u "1.1 B"; u "1.1.1 C"] = ps1 ++ p :: ps2 →
    is_Some (heading Unicode.ascii_isdecimal H3 p) →
    h3_in_place Unicode.ascii_isdecimal ps1.
Proof.
  apply (extract_headings_returns Unicode.ascii_isdecimal
           ascii_isdecimal_ascii ascii_isdecimal_not_space).
Defined.

(** ** Where the keys come from *)

Section Provenance.
Variable isdecimal : N → bool.

Lemma keys_sat_empty (P1 P2 P3 : str → Prop) : keys_sat P1 P2 P3 ∅.
Proof. intros k1 d1 H. by rewrite lookup_empty in H. Qed.

Lemma keys_sat_mono (P1 P2 P3 Q1 Q2 Q3 : str → Prop) d :
  (∀ k, P1 k → Q1 k) → (∀ k, P2 k → Q2 k) → (∀ k, P3 k → Q3 k) →
  keys_sat P1 P2 P3 d → keys_sat Q1 Q2 Q3 d.
Proof.
  intros H1 H2 H3 Hd k1 d1 E1. destruct (Hd k1 d1 E1) as [? Hd1].
  split; [by auto|]. intros k2 d2 E2. destruct (Hd1 k2 d2 E2) as [? Hd2].
  split; by auto.
Qed.

Lemma keys_sat_insert1 (P1 P2 P3 : str → Prop) (d : tree) l :
  keys_sat P1 P2 P3 d → P1 l → keys_sat P1 P2 P3 (<[l := ∅]> d).
Proof.
  intros Hd Hl k1 d1. rewrite lookup_insert.
  case_decide as E; [|by apply Hd].
  intros [= <-]. subst k1. split; [done|].
  intros k2 d2 H. by rewrite lookup_empty in H.
Qed.

Lemma keys_sat_insert2 (P1 P2 P3 : str → Prop) (d : tree) k1 d1 l :
  keys_sat P1 P2 P3 d → d !! k1 = Some d1 → P2 l →
  keys_sat P1 P2 P3 (<[k1 := <[l := ∅]> d1]> d).
Proof.
  intros Hd H1 Hl k1' d1'. rewrite lookup_insert.
  case_decide as E; [|by apply Hd].
  intros [= <-]. subst k1'. destruct (Hd _ _ H1) as [Hk1 Hd1].
  split; [done|]. intros k2 d2. rewrite lookup_insert.
  case_decide as E2; [|by apply Hd1].
  intros [= <-]. subst k2. split; [done|].
  intros k3 [? H]. by rewrite lookup_empty in H.
Qed.

Lemma keys_sat_insert3 (P1 P2 P3 : str → Prop) (d : tree) k1 d1 k2 d2 l :
  keys_sat P1 P2 P3 d → d !! k1 = Some d1 → d1 !! k2 = Some d2 → P3 l →
  keys_sat P1 P2 P3 (<[k1 := <[k2 := <[l := ()]> d2]> d1]> d).
Proof.
  intros Hd H1 H2 Hl k1' d1'. rewrite lookup_insert.
  case_decide as E; [|by apply Hd].
  intros [= <-]. subst k1'. destruct (Hd _ _ H1) as [Hk1 Hd1].
  split; [done|]. intros k2' d2'. rewrite lookup_insert.
  case_decide as E2; [|by apply Hd1].
  intros [= <-]. subst k2'. destruct (Hd1 _ _ H2) as [Hk2 Hd2].
  split; [done|]. intros k3. rewrite lookup_insert.
  case_decide as E3; [by subst|by apply Hd2].
Qed.

(** The group of a match has no line feed: [.] matches none. *)
Lemma heading_no_LF l p k : heading isdecimal l p = Some k → no_LF k.
Proof.
  intros H%heading_Some.
  apply re_match_tail in H as (a & b & _ & H).
  apply exec_tail in H as (ws & label & rest & _ & _ & _ & _ & Hany & _ & E & _).
  injection E as <-. eapply Forall_impl; [done|].
  intros c Hc. simpl in Hc. by apply negb_true_iff, N.eqb_neq in Hc.
Qed.

(** The two facts of the Unicode database, as above. *)
Hypothesis isdecimal_ascii :
  ∀ c, (c < 128)%N → isdecimal c = Unicode.ascii_isdecimal c.
Hypothesis isdecimal_not_space :
  ∀ c, isdecimal c = true → Unicode.isspace c = false.

Local Abbreviation step_h2 :=
  (step_h2 isdecimal isdecimal_ascii isdecimal_not_space).
Local Abbreviation step_h3 :=
  (step_h3 isdecimal isdecimal_ascii isdecimal_not_space).

Lemma step_keys_sat (P1 P2 P3 : str → Prop) st p st' :
  keys_sat P1 P2 P3 (headings_dict st) →
  (∀ l, heading isdecimal H1 p = Some l → P1 l) →
  (∀ l, heading isdecimal H2 p = Some l → P2 l) →
  (∀ l, heading isdecimal H3 p = Some l → P3 l) →
  step isdecimal st p = Ok st' →
  keys_sat P1 P2 P3 (headings_dict st').
Proof.
  intros Hd Hp1 Hp2 Hp3.
  destruct (heading_cases isdecimal p)
    as [[l E1]|[(l & E2 & E1)|[(l & E3 & E1 & E2)|E]]].
  - rewrite (step_h1' _ _ _ _ E1). intros [= <-]. simpl.
    apply keys_sat_insert1; by auto.
  - rewrite (step_h2 _ _ _ E2).
    destruct (truthy (current_h1 st)) as [k1|]; [|by intros [= <-]].
    destruct (getitem (headings_dict st) k1) as [d1|] eqn:G1; [|done].
    simpl. intros [= <-]. simpl. apply getitem_Ok in G1.
    apply keys_sat_insert2; by auto.
  - rewrite (step_h3 _ _ _ E3).
    destruct (truthy (current_h1 st)) as [k1|]; [|by intros [= <-]].
    destruct (truthy (current_h2 st)) as [k2|]; [|by intros [= <-]].
    destruct (getitem (headings_dict st) k1) as [d1|] eqn:G1; [|done].
    simpl. destruct (getitem d1 k2) as [d2|] eqn:G2; [|done].
    simpl. intros [= <-]. simpl. apply getitem_Ok in G1, G2.
    apply keys_sat_insert3; by auto.
  - rewrite step_none by (intros l; apply heading_None, E).
    by intros [= <-].
Qed.

Lemma loop_keys_from ps st :
  loop isdecimal initial ps = Ok st →
  keys_sat (λ k, k ∈ omap (heading isdecimal H1) ps)
           (λ k, k ∈ omap (heading isdecimal H2) ps)
           (λ k, k ∈ omap (heading isdecimal H3) ps)
           (headings_dict st).
Proof.
  revert st. induction ps as [|p ps IH] using rev_ind; intros st.
  { intros [= <-]. apply keys_sat_empty. }
  intros (st1 & Hl & Hs)%loop_snoc.
  eapply step_keys_sat; [|..|exact Hs].
  - eapply keys_sat_mono; [..|by apply IH];
      intros k Hk; rewrite omap_app; apply elem_of_app; by left.
  - intros l E. rewrite omap_app. apply elem_of_app. right. simpl.
    rewrite E. apply list_elem_of_here.
  - intros l E. rewrite omap_app. apply elem_of_app. right. simpl.
    rewrite E. apply list_elem_of_here.
  - intros l E. rewrite omap_app. apply elem_of_app. right. simpl.
    rewrite E. apply list_elem_of_here.
Qed.

(** X9: every key of a returned mapping is the label of a heading of the
    document, of the level of the key: level-1 keys of level-1 headings,
    level-2 keys of level-2 headings, level-3 keys of level-3 headings. *)
Theorem extract_headings_keys_from ps d :
  extract_headings isdecimal ps = Ok d →
  keys_sat (λ k, k ∈ omap (heading isdecimal H1) ps)
           (λ k, k ∈ omap (heading isdecimal H2) ps)
           (λ k, k ∈ omap (heading isdecimal H3) ps)
           d.
Proof.
  intros (st & Hl & <-)%extract_headings_Ok. by apply loop_keys_from.
Qed.

(** X10: no key of a returned mapping, at any level, holds a line feed: a
    paragraph with a line break in what would be its label is no
    heading. *)
Theorem extract_headings_keys_no_LF ps d :
  extract_headings isdecimal ps = Ok d → keys_sat no_LF no_LF no_LF d.
Proof.
  intros (st & Hl & <-)%extract_headings_Ok.
  eapply keys_sat_mono; [..|by apply loop_keys_from];
    intros k (p & _ & Hp)%list_elem_of_omap; by eapply heading_no_LF.
Qed.

(** *** The same paragraph twice *)

Lemma step_twice st p st' :
  step isdecimal st p = Ok st' → step isdecimal st' p = Ok st'.
Proof.
  destruct (heading_cases isdecimal p)
    as [[l E1]|[(l & E2 & E1)|[(l & E3 & E1 & E2)|E]]].
  - rewrite !(step_h1' _ _ _ _ E1). intros [= <-]. simpl.
    by rewrite insert_insert_eq.
  - rewrite !(step_h2 _ _ _ E2).
    destruct (truthy (current_h1 st)) as [k1|] eqn:T1.
    2:{ intros [= <-]. by rewrite T1. }
    destruct (getitem (headings_dict st) k1) as [d1|] eqn:G1; [|done].
    simpl. intros [= <-]. simpl. rewrite T1. unfold getitem.
    rewrite lookup_insert_eq. simpl.
    by rewrite !insert_insert_eq.
  - rewrite !(step_h3 _ _ _ E3).
    destruct (truthy (current_h1 st)) as [k1|] eqn:T1.
    2:{ intros [= <-]. by rewrite T1. }
    destruct (truthy (current_h2 st)) as [k2|] eqn:T2.
    2:{ intros [= <-]. by rewrite T1, T2. }
    destruct (getitem (headings_dict st) k1) as [d1|] eqn:G1; [|done].
    simpl. destruct (getitem d1 k2) as [d2|] eqn:G2; [|done].
    simpl. intros [= <-]. simpl. rewrite T1, T2. unfold getitem.
    rewrite lookup_insert_eq. simpl. rewrite lookup_insert_eq. simpl.
    by rewrite !insert_insert_eq.
  - rewrite !step_none by (intros l; apply heading_None, E).
    by intros [= <-].
Qed.

(** X11: a paragraph that comes twice in a row counts once: the result,
    mapping or exception, is the one of the sequence with the second copy
    deleted. *)
Theorem extract_headings_repeat ps p qs :
  extract_headings isdecimal (ps ++ p :: p :: qs) =
  extract_headings isdecimal (ps ++ p :: qs).
Proof.
  unfold extract_headings. rewrite !loop_app.
  destruct (loop isdecimal initial ps) as [st|e]; [|done]. simpl.
  destruct (step isdecimal st p) as [st'|e] eqn:Hs; [|done]. simpl.
  by rewrite (step_twice _ _ _ Hs).
Qed.
End Provenance.

(** ** What a heading looks like *)

Section Shape.
Variable isdecimal : N → bool.

Local Abbreviation exec := (Re.exec isdecimal).
Local Abbreviation re_match := (Re.re_match isdecimal).

Lemma exec_digits_inv prog bos g s m :
  exec (Re.Max_repeat1 Re.Digit :: prog) bos g s = Some m →
  ∃ n rest, s = n ++ rest ∧ n ≠ [] ∧
            Forall (λ c, isdecimal c = true) n ∧
            exec prog false g rest = Some m.
Proof.
  intros H.
  apply (max_repeat1_Some (Re.in_category isdecimal Re.Digit)
           (exec prog false g)) in H
    as (n & rest & -> & Hn & Hd & H & _).
  by exists n, rest.
Qed.

Lemma exec_literal_inv prog bos g c s m :
  exec (Re.Literal c :: prog) bos g s = Some m →
  ∃ rest, s = c :: rest ∧ exec prog false g rest = Some m.
Proof.
  simpl. destruct s as [|c' rest]; [done|].
  destruct (c' =? c)%N eqn:E; [|done].
  apply N.eqb_eq in E as ->. by exists rest.
Qed.

Lemma tail_inv s k :
  exec heading_tail false [] s = Some [k] →
  (∀ c, last s = Some c → Unicode.isspace c = false) →
  ∃ ws, s = ws ++ k ∧ ws ≠ [] ∧
        Forall (λ c, Unicode.isspace c = true) ws.
Proof.
  intros H Hlast.
  apply exec_tail in H
    as (ws & label & rest & -> & Hws & Hsp & _ & _ & Hend & E & _).
  injection E as <-. exists ws.
  apply at_end_inv in Hend as [->| ->].
  - by rewrite app_nil_r.
  - exfalso. specialize (Hlast Unicode.LF).
    rewrite !app_assoc, last_snoc in Hlast. by specialize (Hlast eq_refl).
Qed.

Lemma last_suffix (a b : str) :
  (∀ c, last (a ++ b) = Some c → Unicode.isspace c = false) →
  ∀ c, last b = Some c → Unicode.isspace c = false.
Proof. intros H c Hc. apply H. by rewrite last_app, Hc. Qed.

(** X12: every heading is made that way: the stripped text of a heading
    of a level is as many non-empty runs of decimal digits as the level
    asks for, joined by full stops, then whitespace, then the label, and
    the label is not empty, has no whitespace at either end and no line
    feed. *)
Theorem heading_shape l p k :
  heading isdecimal l p = Some k →
  ∃ nums ws,
    strip p = dotted nums ++ ws ++ k ∧
    length nums = depth l ∧
    Forall (λ n, n ≠ [] ∧ Forall (λ c, isdecimal c = true) n) nums ∧
    ws ≠ [] ∧ Forall (λ c, Unicode.isspace c = true) ws ∧
    label_ok k ∧ no_LF k.
Proof.
  intros E. pose proof (heading_no_LF _ _ _ _ E) as Hlf.
  apply heading_Some in E.
  destruct (strip_match_label _ _ _ _ E) as (k' & [= <-] & Hok).
  pose proof (strip_last p) as Hlast.
  destruct l.
  - change (exec (Re.Max_repeat1 Re.Digit :: heading_tail)
              true [] (strip p) = Some [k]) in E.
    apply exec_digits_inv in E as (n1 & r1 & E1 & ? & ? & E).
    rewrite E1 in Hlast |- *.
    apply tail_inv in E as (ws & -> & ? & ?); [|by apply (last_suffix n1)].
    exists [n1], ws. by split_and!; [..|repeat constructor| | | |].
  - change (exec (Re.Max_repeat1 Re.Digit :: Re.Literal Unicode.FULL_STOP ::
                  Re.Max_repeat1 Re.Digit :: heading_tail)
              true [] (strip p) = Some [k]) in E.
    apply exec_digits_inv in E as (n1 & r1 & E1 & ? & ? & E).
    apply exec_literal_inv in E as (r2 & -> & E).
    apply exec_digits_inv in E as (n2 & r3 & -> & ? & ? & E).
    rewrite E1 in Hlast |- *.
    apply tail_inv in E as (ws & -> & ? & ?).
    2:{ apply (last_suffix (n1 ++ Unicode.FULL_STOP :: n2)).
        by rewrite <-app_assoc. }
    exists [n1; n2], ws. simpl. rewrite <-app_assoc. simpl.
    by split_and!; [..|repeat constructor| | | |].
  - change (exec (Re.Max_repeat1 Re.Digit :: Re.Literal Unicode.FULL_STOP ::
                  Re.Max_repeat1 Re.Digit :: Re.Literal Unicode.FULL_STOP ::
                  Re.Max_repeat1 Re.Digit :: heading_tail)
              true [] (strip p) = Some [k]) in E.
    apply exec_digits_inv in E as (n1 & r1 & E1 & ? & ? & E).
    apply exec_literal_inv in E as (r2 & -> & E).
    apply exec_digits_inv in E as (n2 & r3 & -> & ? & ? & E).
    apply exec_literal_inv in E as (r4 & -> & E).
    apply exec_digits_inv in E as (n3 & r5 & -> & ? & ? & E).
    rewrite E1 in Hlast |- *.
    apply tail_inv in E as (ws & -> & ? & ?).
    2:{ apply (last_suffix
                 (n1 ++ Unicode.FULL_STOP :: n2 ++ Unicode.FULL_STOP :: n3)).
        by rewrite <-app_assoc; simpl; rewrite <-app_assoc. }
    exists [n1; n2; n3], ws. simpl.
    rewrite <-app_assoc. simpl. rewrite <-app_assoc. simpl.
    by split_and!; [..|repeat constructor| | | |].
Qed.
End Shape.

Lemma extract_headings_keys_from_witness :
  keys_sat
    (λ k, k ∈ omap (heading Unicode.ascii_isdecimal H1)
                [u "1 A"; u "1.1 B"; u "1.1.1 C"])
    (λ k, k ∈ omap (heading Unicode.ascii_isdecimal H2)
                [u "1 A"; u "1.1 B"; u "1.1.1 C"])
    (λ k, k ∈ omap (heading Unicode.ascii_isdecimal H3)
                [u "1 A"; u "1.1 B"; u "1.1.1 C"])
    {[ u "A" := {[ u "B" := {[ u "C" := () ]} ]} ]}.
Proof.
  apply (extract_headings_keys_from Unicode.ascii_isdecimal
           ascii_isdecimal_ascii ascii_isdecimal_not_space).
  vm_compute. reflexivity.
Defined.

Lemma extract_headings_keys_no_LF_witness :
  keys_sat no_LF no_LF no_LF
    {[ u "A" := {[ u "B" := {[ u "C" := () ]} ]} ]}.
Proof.
  apply (extract_headings_keys_no_LF Unicode.ascii_isdecimal
           ascii_isdecimal_ascii ascii_isdecimal_not_space
           [u "1 A"; u "1.1 B"; u "1.1.1 C"]).
  vm_compute. reflexivity.
Defined.

Lemma extract_headings_repeat_witness :
  extract_headings Unicode.ascii_isdecimal
    ([u "1 A"] ++ u "1.1 B" :: u "1.1 B" :: [u "1.1.1 C"]) =
  extract_headings Unicode.ascii_isdecimal
    ([u "1 A"] ++ u "1.1 B" :: [u "1.1.1 C"]).
Proof.
  apply (extract_headings_repeat Unicode.ascii_isdecimal
           ascii_isdecimal_ascii ascii_isdecimal_not_space).
Defined.

Lemma heading_shape_witness :
  ∃ nums ws,
    strip (u " 12.3  A b ") = dotted nums ++ ws ++ u "A b" ∧
    length nums = depth H2 ∧
    Forall (λ n, n ≠ [] ∧
                 Forall (λ c, Unicode.ascii_isdecimal c = true) n) nums ∧
    ws ≠ [] ∧ Forall (λ c, Unicode.isspace c = true) ws ∧
    label_ok (u "A b") ∧ no_LF (u "A b").
Proof.
  apply (heading_shape Unicode.ascii_isdecimal). vm_compute. reflexivity.
Defined.
